(** * BlenderFDS, algorithms for triangulated surfaces

    A shallow embedding of [geometry/calc_trisurfaces.py]: material
    collection, the bmesh quality checks, the duplicate-vertex detector,
    the intersection check and the extraction of the triangulated surface.

    Conventions of the embedding.
    - The coordinates of a vertex and the scale are Python floats, IEEE
      doubles: they are primitive floats, and a product of two of them is
      the rounded product. Lengths, areas and tolerances, which the program
      only compares, are the rationals the floats stand for ([Q]), and so
      is the distance that the kd-tree measures between two positions.
    - A bmesh is an arena: vertices, edges and faces are referred to by
      their position in [bm.verts], [bm.edges] and [bm.faces]; the [index]
      attribute of an element is that position.
    - Attributes that the host computes ([is_manifold], [is_contiguous],
      [link_edges], the edges of a face, [calc_length()], [calc_area()])
      are fields of the element that carries them. Whether the lookup
      table of [bm.verts] is up to date, which [bm.verts[i]] needs, is a
      field of the bmesh.
    - Python exceptions are values of [exn]; a computation returns its
      outcome together with the state it leaves behind, so that what was
      mutated before a [raise] stays mutated. *)

From Stdlib Require Import List String Ascii Bool Arith Lia ZArith QArith.
From Stdlib Require Import Permutation DecimalString.
From Stdlib Require Import PrimFloat FloatOps SpecFloat.
Import ListNotations.

Local Open Scope list_scope.

(** ** Exceptions and outcomes *)

Inductive exn : Type :=
| BFException (ob_name : string) (msg : string)
| IndexError
| RuntimeError (msg : string)
| TypeError
| ValueError.

Inductive result (A : Type) : Type :=
| Ok (a : A)
| Raise (e : exn).

Arguments Ok {A} a.
Arguments Raise {A} e.

(** A computation over a mutable state [S]. *)
Definition M (S A : Type) : Type := S -> result A * S.

Definition ret {S A} (a : A) : M S A := fun s => (Ok a, s).

Definition raise {S A} (e : exn) : M S A := fun s => (Raise e, s).

Definition bind {S A B} (m : M S A) (k : A -> M S B) : M S B :=
  fun s =>
    match m s with
    | (Ok a, s') => k a s'
    | (Raise e, s') => (Raise e, s')
    end.

Definition get {S} : M S S := fun s => (Ok s, s).

Definition modify {S} (f : S -> S) : M S unit := fun s => (Ok tt, f s).

Declare Scope py_scope.
Delimit Scope py_scope with py.

Notation "x <- m ;; k" := (bind m (fun x => k))
  (at level 61, m at next level, right associativity) : py_scope.
Notation "m ;; k" := (bind m (fun _ => k))
  (at level 61, right associativity) : py_scope.

(** [str(n)] for a non-negative integer, as an f-string prints it. *)
Definition str (n : nat) : string := NilEmpty.string_of_uint (Nat.to_uint n).

(** ** Geometry *)

Module Vector.
Record t : Type := mk { x : float; y : float; z : float }.
End Vector.

(** The rational a float stands for; an infinity or a NaN, which no
    coordinate of a mesh is, stands for [0]. *)
Definition to_Q (f : float) : Q :=
  match Prim2SF f with
  | S754_finite s m e =>
      let n := if s then Z.neg m else Z.pos m in
      match e with
      | Z0 => inject_Z n
      | Z.pos p => inject_Z (n * Z.pow_pos 2 p)
      | Z.neg p => Qmake n (Pos.pow 2 p)
      end
  | _ => 0
  end.

(** Squared Euclidean distance, as the kd-tree measures it. *)
Definition len_squared (a b : Vector.t) : Q :=
  let dx := to_Q (Vector.x a) - to_Q (Vector.x b) in
  let dy := to_Q (Vector.y a) - to_Q (Vector.y b) in
  let dz := to_Q (Vector.z a) - to_Q (Vector.z b) in
  dx * dx + dy * dy + dz * dz.

(** ** The bmesh *)

Module BMVert.
Record t : Type := mk {
  co : Vector.t;
  is_manifold : bool;
  link_edges : list nat;
  select : bool
}.
Definition set_select (b : bool) (v : t) : t :=
  mk (co v) (is_manifold v) (link_edges v) b.
End BMVert.

Module BMEdge.
Record t : Type := mk {
  verts : nat * nat;
  is_manifold : bool;
  is_contiguous : bool;
  calc_length : Q;
  select : bool
}.
Definition set_select (b : bool) (e : t) : t :=
  mk (verts e) (is_manifold e) (is_contiguous e) (calc_length e) b.
End BMEdge.

Module BMFace.
Record t : Type := mk {
  verts : list nat;
  edges : list nat;
  material_index : nat;
  normal : Vector.t;
  calc_area : Q;
  select : bool
}.
Definition set_select (b : bool) (f : t) : t :=
  mk (verts f) (edges f) (material_index f) (normal f) (calc_area f) b.
End BMFace.

(** [verts_lookup] tells whether the lookup table of [bm.verts] is up to
    date, as it is after [bm.verts.ensure_lookup_table()]; without it
    [bm.verts[i]] raises an [IndexError]. *)
Module BMesh.
Record t : Type := mk {
  verts : list BMVert.t;
  edges : list BMEdge.t;
  faces : list BMFace.t;
  is_valid : bool;
  verts_lookup : bool
}.
Definition set_verts_lookup (b : bool) (bm : t) : t :=
  mk (verts bm) (edges bm) (faces bm) (is_valid bm) b.
End BMesh.

(** ** Materials *)

Module Material.
Record t : Type := mk { name : string; bf_surf_export : bool }.
End Material.

Module MaterialSlot.
Record t : Type := mk { material : option Material.t }.
End MaterialSlot.

(** ** The host library

    [mathutils] matrices and bounding-volume trees and
    [bmesh.ops.recalc_face_normals] belong to the host, not to this
    repository; the program is written against this interface.
    [Matrix.inverted()] raises [ValueError] on a singular matrix, which is
    [None] here. [overlap] returns the index pairs [(i, j)] of overlapping
    triangles, [i] an index of the tree it is called on.
    [select_flush_mode t] is what the editor does to the selection flags
    of a mesh when it is shown for editing in select mode [t], on entering
    edit mode and on [bpy.ops.mesh.select_mode]. *)

Inductive Mode : Type := OBJECT | EDIT.

Inductive SelectType : Type := VERT | EDGE | FACE.

Class Host : Type := {
  Matrix : Type;
  inverted : Matrix -> option Matrix;
  matmul : Matrix -> Matrix -> Matrix;
  BVHTree : Type;
  FromBMesh : BMesh.t -> Q -> BVHTree;
  overlap : BVHTree -> BVHTree -> list (nat * nat);
  recalc_face_normals : BMesh.t -> BMesh.t;
  select_flush_mode : SelectType -> BMesh.t -> BMesh.t
}.

(** ** Objects, the context and the state *)

Module Object.
Record t `{Host} : Type := mk {
  name : string;
  material_slots : list MaterialSlot.t;
  modifiers : list string;
  data : BMesh.t;
  matrix_world : Matrix
}.
Arguments mk {_} _ _ _ _ _.
End Object.

(** [object] is the active object ([context.object]), by name;
    [selected_objects] the names of the selected objects of the scene;
    [select_mode] the mesh select mode of the editor; [edit_mesh] the mesh
    that the editor shows while in edit mode, with its selection, followed
    from the moment the program enters edit mode. *)
Module Context.
Record t : Type := mk {
  bf_config_min_edge_length : Q;
  bf_config_min_face_area : Q;
  object : option string;
  mode : Mode;
  selected_objects : list string;
  select_mode : SelectType;
  edit_mesh : option BMesh.t
}.
End Context.

(** What the host owns: the context and the object under export. *)
Module Scene.
Record t `{Host} : Type := mk {
  context : Context.t;
  ob : Object.t
}.
Arguments mk {_} _ _.
End Scene.

(** The state of a check: the scene and the bmesh under inspection. *)
Module World.
Record t `{Host} : Type := mk {
  scene : Scene.t;
  bm : BMesh.t
}.
Arguments mk {_} _ _.
End World.

(** [utils.get_object_bmesh(context, ob, matrix, world, triangulate, lookup)]
    is a helper of this repository defined in [geometry/utils.py], outside
    [calc_trisurfaces.py]; it is taken as a parameter. Every keyword
    argument but [context] and [ob] is optional: [None] stands for an
    argument that the call leaves out. *)
Class Utils `{Host} : Type := {
  get_object_bmesh :
    Context.t -> Object.t -> option Matrix ->
    option bool -> option bool -> option bool -> result BMesh.t
}.

(** ** List helpers *)

(** [enumerate(l)]. *)
Definition enumerate {A} (l : list A) : list (nat * A) :=
  combine (seq 0 (List.length l)) l.

(** The handles of the elements of [l] that satisfy [p], in order: the
    loop [for e in l: if p(e): bad.append(e)]. *)
Definition handles_where {A} (p : A -> bool) (l : list A) : list nat :=
  map fst (filter (fun ie => p (snd ie)) (enumerate l)).

Fixpoint update_at {A} (i : nat) (f : A -> A) (l : list A) : list A :=
  match l, i with
  | [], _ => []
  | a :: l', O => f a :: l'
  | a :: l', S i' => a :: update_at i' f l'
  end.

(** [for b in bad: b.select = True] on an arena. *)
Definition update_all {A} (bad : list nat) (f : A -> A) (l : list A) : list A :=
  fold_left (fun acc i => update_at i f acc) bad l.

Definition nonempty {A} (l : list A) : bool :=
  match l with [] => false | _ :: _ => true end.

(** ** The kd-tree of [mathutils.kdtree]

    The tree is the list of the inserted points with their indices.
    [find_range(co, radius)] finds the points within [radius] of [co]
    (squared distance at most [radius * radius]) and refuses a negative
    radius with a [RuntimeError]. The host returns triples
    [(position, index, distance)] sorted by distance; the caller keeps
    the index only, and only membership in the result is relied upon. *)
Definition KDTree : Type := list (Vector.t * nat).

Definition kd_insert (kd : KDTree) (co : Vector.t) (i : nat) : KDTree :=
  kd ++ [(co, i)].

Definition find_range (kd : KDTree) (co : Vector.t) (radius : Q)
  : result (list nat) :=
  if Qle_bool 0 radius then
    Ok (map snd
          (filter (fun p => Qle_bool (len_squared co (fst p)) (radius * radius))
                  kd))
  else Raise (RuntimeError "negative radius given").

(** ** The program *)

Section Program.

Context `{U : Utils}.

Local Open Scope py_scope.

(** *** State updates *)

Definition set_bm (f : BMesh.t -> BMesh.t) (w : World.t) : World.t :=
  World.mk (World.scene w) (f (World.bm w)).

Definition set_ob (f : Object.t -> Object.t) (w : World.t) : World.t :=
  World.mk
    (Scene.mk (Scene.context (World.scene w)) (f (Scene.ob (World.scene w))))
    (World.bm w).

Definition set_context (f : Context.t -> Context.t) (w : World.t) : World.t :=
  World.mk
    (Scene.mk (f (Scene.context (World.scene w))) (Scene.ob (World.scene w)))
    (World.bm w).

(** [for vert in bm.verts: vert.select = False]. *)
Definition deselect_verts (bm : BMesh.t) : BMesh.t :=
  BMesh.mk (map (BMVert.set_select false) (BMesh.verts bm))
           (BMesh.edges bm) (BMesh.faces bm) (BMesh.is_valid bm)
           (BMesh.verts_lookup bm).

Definition vert_selected (bm : BMesh.t) (i : nat) : bool :=
  match nth_error (BMesh.verts bm) i with
  | Some v => BMVert.select v
  | None => false
  end.

Definition edge_selected (bm : BMesh.t) (i : nat) : bool :=
  match nth_error (BMesh.edges bm) i with
  | Some e => BMEdge.select e
  | None => false
  end.

Definition face_selected (bm : BMesh.t) (i : nat) : bool :=
  match nth_error (BMesh.faces bm) i with
  | Some f => BMFace.select f
  | None => false
  end.

(** [bm.select_flush(False)]: an edge or a face stays selected only when
    all its vertices are. *)
Definition select_flush_false (bm : BMesh.t) : BMesh.t :=
  BMesh.mk
    (BMesh.verts bm)
    (map (fun e =>
            BMEdge.set_select
              (BMEdge.select e
               && vert_selected bm (fst (BMEdge.verts e))
               && vert_selected bm (snd (BMEdge.verts e))) e)
         (BMesh.edges bm))
    (map (fun f =>
            BMFace.set_select
              (BMFace.select f && forallb (vert_selected bm) (BMFace.verts f)) f)
         (BMesh.faces bm))
    (BMesh.is_valid bm)
    (BMesh.verts_lookup bm).

(** [for b in bad: b.select = True] on vertices: the flag of the vertex
    is set. *)
Definition select_verts (bad : list nat) (bm : BMesh.t) : BMesh.t :=
  BMesh.mk (update_all bad (BMVert.set_select true) (BMesh.verts bm))
           (BMesh.edges bm) (BMesh.faces bm) (BMesh.is_valid bm)
           (BMesh.verts_lookup bm).

(** [b.select = True] on an edge selects the edge and its two vertices. *)
Definition select_edge (i : nat) (bm : BMesh.t) : BMesh.t :=
  match nth_error (BMesh.edges bm) i with
  | None => bm
  | Some e =>
      BMesh.mk
        (update_all [fst (BMEdge.verts e); snd (BMEdge.verts e)]
                    (BMVert.set_select true) (BMesh.verts bm))
        (update_at i (BMEdge.set_select true) (BMesh.edges bm))
        (BMesh.faces bm) (BMesh.is_valid bm) (BMesh.verts_lookup bm)
  end.

Definition select_edges (bad : list nat) (bm : BMesh.t) : BMesh.t :=
  fold_left (fun acc i => select_edge i acc) bad bm.

(** [b.select = True] on a face selects the face, its edges and its
    vertices. *)
Definition select_face (i : nat) (bm : BMesh.t) : BMesh.t :=
  match nth_error (BMesh.faces bm) i with
  | None => bm
  | Some f =>
      BMesh.mk
        (update_all (BMFace.verts f) (BMVert.set_select true) (BMesh.verts bm))
        (update_all (BMFace.edges f) (BMEdge.set_select true) (BMesh.edges bm))
        (update_at i (BMFace.set_select true) (BMesh.faces bm))
        (BMesh.is_valid bm) (BMesh.verts_lookup bm)
  end.

Definition select_faces (bad : list nat) (bm : BMesh.t) : BMesh.t :=
  fold_left (fun acc i => select_face i acc) bad bm.

(** [bm.free()]. *)
Definition free (bm : BMesh.t) : BMesh.t :=
  BMesh.mk (BMesh.verts bm) (BMesh.edges bm) (BMesh.faces bm) false
           (BMesh.verts_lookup bm).

(** [ob.modifiers.clear()]. *)
Definition modifiers_clear (ob : Object.t) : Object.t :=
  Object.mk (Object.name ob) (Object.material_slots ob) []
            (Object.data ob) (Object.matrix_world ob).

(** [bm.to_mesh(ob.data)]. *)
Definition to_mesh (w : World.t) : World.t :=
  set_ob (fun ob =>
            Object.mk (Object.name ob) (Object.material_slots ob)
                      (Object.modifiers ob) (World.bm w)
                      (Object.matrix_world ob)) w.

(** [bpy.ops.object.mode_set(mode="OBJECT")]: the editor shows no mesh
    for editing. *)
Definition mode_set_object (c : Context.t) : Context.t :=
  Context.mk (Context.bf_config_min_edge_length c)
             (Context.bf_config_min_face_area c)
             (Context.object c) OBJECT
             (Context.selected_objects c) (Context.select_mode c) None.

(** [if context.object: bpy.ops.object.mode_set(mode="OBJECT")]. *)
Definition mode_set_object_if_active (c : Context.t) : Context.t :=
  match Context.object c with
  | Some _ => mode_set_object c
  | None => c
  end.

(** [bpy.ops.object.mode_set(mode="EDIT")], called with [ob] the active
    object: the editor shows the mesh data of [ob], its selection flushed
    for the select mode of the editor. *)
Definition mode_set_edit (w : World.t) : World.t :=
  set_context
    (fun c =>
       Context.mk (Context.bf_config_min_edge_length c)
                  (Context.bf_config_min_face_area c)
                  (Context.object c) EDIT
                  (Context.selected_objects c) (Context.select_mode c)
                  (Some (select_flush_mode
                           (Context.select_mode c)
                           (Object.data (Scene.ob (World.scene w))))))
    w.

(** [bpy.ops.object.select_all(action="DESELECT")]. *)
Definition select_all_deselect (c : Context.t) : Context.t :=
  Context.mk (Context.bf_config_min_edge_length c)
             (Context.bf_config_min_face_area c)
             (Context.object c) (Context.mode c)
             [] (Context.select_mode c) (Context.edit_mesh c).

(** [ob.select_set(True)]. *)
Definition select_set_true (ob_name : string) (c : Context.t) : Context.t :=
  Context.mk (Context.bf_config_min_edge_length c)
             (Context.bf_config_min_face_area c)
             (Context.object c) (Context.mode c)
             (ob_name :: Context.selected_objects c) (Context.select_mode c)
             (Context.edit_mesh c).

(** [context.view_layer.objects.active = ob]. *)
Definition set_active (ob_name : string) (c : Context.t) : Context.t :=
  Context.mk (Context.bf_config_min_edge_length c)
             (Context.bf_config_min_face_area c)
             (Some ob_name) (Context.mode c)
             (Context.selected_objects c) (Context.select_mode c)
             (Context.edit_mesh c).

(** [bpy.ops.mesh.select_mode(use_extend=False, use_expand=False, type=t)]:
    the select mode becomes [t] and the selection of the mesh under
    editing is flushed for it. *)
Definition set_select_mode (t : SelectType) (c : Context.t) : Context.t :=
  Context.mk (Context.bf_config_min_edge_length c)
             (Context.bf_config_min_face_area c)
             (Context.object c) (Context.mode c)
             (Context.selected_objects c) t
             (option_map (select_flush_mode t) (Context.edit_mesh c)).

(** *** Get triangulated surface: materials *)

Definition msg_no_material : string :=
  "No referenced SURF, add at least one Material".

Definition msg_empty_slot : string :=
  "No referenced SURF, fill empty slot with at least one Material".

Definition msg_not_exported (ma_name : string) : string :=
  ("Referenced SURF <" ++ ma_name ++ "> is not exported")%string.

(** The loop of [_get_materials] over the slots, [mas] being the names
    appended so far. *)
Fixpoint _get_materials_loop (ob_name : string)
  (material_slots : list MaterialSlot.t) (mas : list string)
  : result (list string) :=
  match material_slots with
  | [] => Ok mas
  | material_slot :: rest =>
      match MaterialSlot.material material_slot with
      | None => Raise (BFException ob_name msg_empty_slot)
      | Some ma =>
          if negb (Material.bf_surf_export ma)
          then Raise (BFException ob_name (msg_not_exported (Material.name ma)))
          else _get_materials_loop ob_name rest (mas ++ [Material.name ma])
      end
  end.

(** [_get_materials(context, ob)]: get referenced ob materials from slots. *)
Definition _get_materials (ob : Object.t) : result (list string) :=
  let material_slots := Object.material_slots ob in
  if List.length material_slots =? 0
  then Raise (BFException (Object.name ob) msg_no_material)
  else _get_materials_loop (Object.name ob) material_slots [].

(** *** Raise bad geometry

    [bad_verts], [bad_edges] and [bad_faces] default to [None], which the
    function cannot tell from an empty list; both are [[]] here. *)
Definition _raise_bad_geometry (msg : string) (protect : bool)
  (bad_verts bad_edges bad_faces : list nat) : M World.t unit :=
  w <- get ;;
  let ob_name := Object.name (Scene.ob (World.scene w)) in
  if protect then raise (BFException ob_name msg) else
  (* Deselect all in bmesh *)
  modify (set_bm deselect_verts) ;;
  modify (set_bm select_flush_false) ;;
  (* Select bad elements *)
  let select_type : option SelectType := None in
  select_type <- (if nonempty bad_faces
                  then modify (set_bm (select_faces bad_faces)) ;;
                       ret (Some FACE)
                  else ret select_type) ;;
  select_type <- (if nonempty bad_edges
                  then modify (set_bm (select_edges bad_edges)) ;;
                       ret (Some EDGE)
                  else ret select_type) ;;
  select_type <- (if nonempty bad_verts
                  then modify (set_bm (select_verts bad_verts)) ;;
                       ret (Some VERT)
                  else ret select_type) ;;
  (* Remove applied modifiers, but keep it relative *)
  modify (set_ob modifiers_clear) ;;
  (* Apply bm to ob *)
  modify to_mesh ;;
  modify (set_bm free) ;;
  (* Select object and go to edit mode *)
  modify (set_context mode_set_object_if_active) ;;
  modify (set_context select_all_deselect) ;;
  modify (set_context (select_set_true ob_name)) ;;
  modify (set_context (set_active ob_name)) ;;
  modify mode_set_edit ;;
  match select_type with
  | Some t => modify (set_context (set_select_mode t))
  | None => raise TypeError
  end ;;
  raise (BFException ob_name msg).

(** *** Check quality *)

Definition msg_manifold_verts (n : nat) : string :=
  ("Non manifold vertices detected (" ++ str n ++ " vertices).")%string.

Definition msg_manifold_edges (n : nat) : string :=
  ("Non manifold or open geometry detected (" ++ str n ++ " edges).")%string.

Definition msg_normals (n : nat) : string :=
  ("Inconsistent face normals detected (" ++ str n ++ " edges).")%string.

Definition msg_degenerate_edges (n : nat) : string :=
  ("Too short edges detected (" ++ str n ++ " edges).")%string.

Definition msg_degenerate_faces (n : nat) : string :=
  ("Too small area faces detected (" ++ str n ++ " faces).")%string.

Definition msg_loose_vertices (n : nat) : string :=
  ("Loose vertices detected (" ++ str n ++ " vertices).")%string.

Definition msg_duplicate_vertices (n : nat) : string :=
  ("Duplicate vertices detected (" ++ str n ++ " vertices).")%string.

(** [_check_bm_manifold_verts]: check manifold vertices. *)
Definition _check_bm_manifold_verts (epsilon_len epsilon_area : Q)
  (protect : bool) : M World.t unit :=
  w <- get ;;
  let bad_verts :=
    handles_where (fun vert => negb (BMVert.is_manifold vert))
                  (BMesh.verts (World.bm w)) in
  if nonempty bad_verts
  then _raise_bad_geometry (msg_manifold_verts (List.length bad_verts))
                           protect bad_verts [] []
  else ret tt.

(** [_check_bm_manifold_edges]: each edge should join two faces, no more
    no less. *)
Definition _check_bm_manifold_edges (epsilon_len epsilon_area : Q)
  (protect : bool) : M World.t unit :=
  w <- get ;;
  let bad_edges :=
    handles_where (fun edge => negb (BMEdge.is_manifold edge))
                  (BMesh.edges (World.bm w)) in
  if nonempty bad_edges
  then _raise_bad_geometry (msg_manifold_edges (List.length bad_edges))
                           protect [] bad_edges []
  else ret tt.

(** [_check_bm_normals]: adjoining faces should have normals in the same
    directions. *)
Definition _check_bm_normals (epsilon_len epsilon_area : Q)
  (protect : bool) : M World.t unit :=
  w <- get ;;
  let bad_edges :=
    handles_where (fun edge => negb (BMEdge.is_contiguous edge))
                  (BMesh.edges (World.bm w)) in
  (if nonempty bad_edges
   then _raise_bad_geometry (msg_normals (List.length bad_edges))
                            protect [] bad_edges []
   else ret tt) ;;
  if negb protect then modify (set_bm recalc_face_normals) else ret tt.

(** [_check_bm_degenerate_edges]: no degenerate edges, zero length edges. *)
Definition _check_bm_degenerate_edges (epsilon_len epsilon_area : Q)
  (protect : bool) : M World.t unit :=
  w <- get ;;
  let bad_edges :=
    handles_where (fun edge => Qle_bool (BMEdge.calc_length edge) epsilon_len)
                  (BMesh.edges (World.bm w)) in
  if nonempty bad_edges
  then _raise_bad_geometry (msg_degenerate_edges (List.length bad_edges))
                           protect [] bad_edges []
  else ret tt.

(** The faces that [_check_bm_degenerate_faces] collects in [bad_faces]. *)
Definition degenerate_faces (bm : BMesh.t) (epsilon_area : Q) : list nat :=
  handles_where (fun face => Qle_bool (BMFace.calc_area face) epsilon_area)
                (BMesh.faces bm).

(** [_check_bm_degenerate_faces]: degenerate faces, zero area faces. *)
Definition _check_bm_degenerate_faces (epsilon_len epsilon_area : Q)
  (protect : bool) : M World.t unit :=
  w <- get ;;
  let bad_faces := degenerate_faces (World.bm w) epsilon_area in
  if nonempty bad_faces
  then _raise_bad_geometry (msg_degenerate_faces (List.length bad_faces))
                           protect [] [] bad_faces
  else ret tt.

(** [_check_bm_loose_vertices]: vertices that have no connectivity. *)
Definition _check_bm_loose_vertices (epsilon_len epsilon_area : Q)
  (protect : bool) : M World.t unit :=
  w <- get ;;
  let bad_verts :=
    handles_where (fun vert => negb (nonempty (BMVert.link_edges vert)))
                  (BMesh.verts (World.bm w)) in
  if nonempty bad_verts
  then _raise_bad_geometry (msg_loose_vertices (List.length bad_verts))
                           protect bad_verts [] []
  else ret tt.

(** The kd-tree that [_check_bm_duplicate_vertices] builds:
    [for i, vert in enumerate(bm.verts): kd.insert(vert.co, i)]. *)
Definition build_kd (verts : list BMVert.t) : KDTree :=
  fold_left (fun kd iv => kd_insert kd (BMVert.co (snd iv)) (fst iv))
            (enumerate verts) [].

(** [[bm.verts[i] for i in vert_group]]: indexing the vertex sequence
    with an outdated lookup table, or past its end, is an [IndexError]. *)
Fixpoint verts_at (bm : BMesh.t) (vert_group : list nat) : result (list nat) :=
  match vert_group with
  | [] => Ok []
  | i :: rest =>
      if BMesh.verts_lookup bm && (i <? List.length (BMesh.verts bm)) then
        match verts_at bm rest with
        | Raise e => Raise e
        | Ok vs => Ok (i :: vs)
        end
      else Raise IndexError
  end.

(** The second loop of [_check_bm_duplicate_vertices] over the vertices
    [vs]: the vertices of the group found around each vertex are looked up
    in [bm.verts] and appended to [bad_verts] when the group has more than
    one member. *)
Fixpoint collect_groups (bm : BMesh.t) (kd : KDTree) (epsilon_len : Q)
  (vs : list BMVert.t) : result (list nat) :=
  match vs with
  | [] => Ok []
  | vert :: rest =>
      match find_range kd (BMVert.co vert) epsilon_len with
      | Raise e => Raise e
      | Ok vert_group =>
          match (if 1 <? List.length vert_group
                 then verts_at bm vert_group else Ok []) with
          | Raise e => Raise e
          | Ok group_verts =>
              match collect_groups bm kd epsilon_len rest with
              | Raise e => Raise e
              | Ok bad_verts => Ok (group_verts ++ bad_verts)
              end
          end
      end
  end.

(** The list [bad_verts] of [_check_bm_duplicate_vertices]. *)
Definition duplicate_vertices (bm : BMesh.t) (epsilon_len : Q)
  : result (list nat) :=
  collect_groups bm (build_kd (BMesh.verts bm)) epsilon_len (BMesh.verts bm).

(** [_check_bm_duplicate_vertices]: check duplicate vertices. *)
Definition _check_bm_duplicate_vertices (epsilon_len epsilon_area : Q)
  (protect : bool) : M World.t unit :=
  w <- get ;;
  match duplicate_vertices (World.bm w) epsilon_len with
  | Raise e => raise e
  | Ok bad_verts =>
      if nonempty bad_verts
      then _raise_bad_geometry (msg_duplicate_vertices (List.length bad_verts))
                               protect bad_verts [] []
      else ret tt
  end.

(** [_check_bm_quality]: check that bmesh is a closed orientable manifold,
    with no degenerate geometry. *)
Definition _check_bm_quality (protect : bool) : M World.t unit :=
  w <- get ;;
  let epsilon_len :=
    Context.bf_config_min_edge_length (Scene.context (World.scene w)) in
  let epsilon_area :=
    Context.bf_config_min_face_area (Scene.context (World.scene w)) in
  _check_bm_manifold_verts epsilon_len epsilon_area protect ;;
  _check_bm_manifold_edges epsilon_len epsilon_area protect ;;
  _check_bm_degenerate_edges epsilon_len epsilon_area protect ;;
  _check_bm_degenerate_faces epsilon_len epsilon_area protect ;;
  _check_bm_loose_vertices epsilon_len epsilon_area protect ;;
  _check_bm_duplicate_vertices epsilon_len epsilon_area protect ;;
  _check_bm_normals epsilon_len epsilon_area protect.

(** Runs a check on [bm] from the scene; the bmesh is a local of the
    caller and goes out of scope with it. *)
Definition in_world {A} (bm : BMesh.t) (m : M World.t A) : M Scene.t A :=
  fun sc =>
    match m (World.mk sc bm) with
    | (r, w) => (r, World.scene w)
    end.

Definition lift {S A} (r : result A) : M S A := fun s => (r, s).

(** [check_geom_quality(context, ob, protect)]. *)
Definition check_geom_quality (protect : bool) : M Scene.t unit :=
  sc <- get ;;
  bm <- lift (get_object_bmesh (Scene.context sc) (Scene.ob sc)
                               None (Some false) (Some true) (Some true)) ;;
  in_world bm (_check_bm_quality protect ;; modify (set_bm free)).

(** *** Check intersections *)

(** [[bm.faces[iface] for iface in ifaces]]: indexing past the end of the
    face sequence is an [IndexError]. *)
Fixpoint faces_at (bm : BMesh.t) (ifaces : list nat) : result (list nat) :=
  match ifaces with
  | [] => Ok []
  | iface :: rest =>
      if iface <? List.length (BMesh.faces bm) then
        match faces_at bm rest with
        | Raise e => Raise e
        | Ok fs => Ok (iface :: fs)
        end
      else Raise IndexError
  end.

(** [_get_bm_intersected_faces(bm, tree, other_tree)]: get intersected
    faces between trees. The set comprehension keeps one copy of each first
    component; the order a Python set is iterated in is not specified, and
    [nodup] fixes one. *)
Definition _get_bm_intersected_faces (bm : BMesh.t) (tree other_tree : BVHTree)
  : result (list nat) :=
  let overlap_pairs := overlap tree other_tree in
  if nonempty overlap_pairs then
    let ifaces := nodup Nat.eq_dec (map fst overlap_pairs) in
    faces_at bm ifaces
  else Ok [].

(** The loop of [check_intersections] over [other_obs], [bad_faces] being
    the faces collected so far. [other_bm] is a local of the loop body,
    freed as soon as its tree is built. *)
Fixpoint intersect_others (context : Context.t) (ob : Object.t)
  (bm : BMesh.t) (tree : BVHTree) (epsilon_len : Q)
  (other_obs : list Object.t) (bad_faces : list nat) : result (list nat) :=
  match other_obs with
  | [] => Ok bad_faces
  | other_ob :: rest =>
      match inverted (Object.matrix_world ob) with
      | None => Raise ValueError
      | Some inv =>
          let matrix := matmul inv (Object.matrix_world other_ob) in
          match get_object_bmesh context ob (Some matrix)
                                 None None (Some true) with
          | Raise e => Raise e
          | Ok other_bm =>
              let other_tree := FromBMesh other_bm epsilon_len in
              match _get_bm_intersected_faces bm tree other_tree with
              | Raise e => Raise e
              | Ok fs =>
                  intersect_others context ob bm tree epsilon_len rest
                                   (bad_faces ++ fs)
              end
          end
      end
  end.

(** [check_intersections(context, ob, other_obs, protect)]: check ob
    self-intersection and intersection with other_obs. [other_obs=None]
    is the empty list. *)
Definition check_intersections (other_obs : list Object.t) (protect : bool)
  : M Scene.t unit :=
  modify (fun sc => Scene.mk (mode_set_object_if_active (Scene.context sc))
                             (Scene.ob sc)) ;;
  sc <- get ;;
  let context := Scene.context sc in
  let ob := Scene.ob sc in
  let epsilon_len := Context.bf_config_min_edge_length context in
  bm <- lift (get_object_bmesh context ob None None None (Some true)) ;;
  let tree := FromBMesh bm epsilon_len in
  (* Get self-intersections *)
  bad_faces <- lift (_get_bm_intersected_faces bm tree tree) ;;
  (* Get intersections *)
  bad_faces <- lift (intersect_others context ob bm tree epsilon_len
                                      other_obs bad_faces) ;;
  (* Raise *)
  if nonempty bad_faces
  then in_world bm (_raise_bad_geometry "Intersection detected." protect
                                        [] [] bad_faces)
  else ret tt.

(** *** Get triangulated surface *)

(** One row of [faces]: [v[0]], [v[1]] and [v[2]] are the first three
    vertices of the face; FDS indices start from 1, not 0. *)
Definition face_row (f : BMFace.t) : result (nat * nat * nat * nat) :=
  match BMFace.verts f with
  | v0 :: v1 :: v2 :: _ =>
      Ok (v0 + 1, v1 + 1, v2 + 1, BMFace.material_index f + 1)%nat
  | _ => Raise IndexError
  end.

Fixpoint face_rows (fs : list BMFace.t)
  : result (list (nat * nat * nat * nat)) :=
  match fs with
  | [] => Ok []
  | f :: rest =>
      match face_row f with
      | Raise e => Raise e
      | Ok row =>
          match face_rows rest with
          | Raise e => Raise e
          | Ok rows => Ok (row :: rows)
          end
      end
  end.

(** One row of [verts]:
    [(co.x * scale_length, co.y * scale_length, co.z * scale_length)],
    three products of doubles. *)
Definition vert_row (scale_length : float) (v : BMVert.t)
  : float * float * float :=
  let co := BMVert.co v in
  (Vector.x co * scale_length, Vector.y co * scale_length,
   Vector.z co * scale_length)%float.

Definition trisurface : Type :=
  list string * list (float * float * float) * list (nat * nat * nat * nat).

(** [get_trisurface(context, ob, scale_length, check, terrain)]: get
    triangulated surface from object in xbs format. *)
Definition get_trisurface (scale_length : float) (check terrain : bool)
  : M Scene.t trisurface :=
  sc <- get ;;
  mas <- lift (_get_materials (Scene.ob sc)) ;;
  bm <- lift (get_object_bmesh (Scene.context sc) (Scene.ob sc)
                               None (Some true) (Some true) (Some false)) ;;
  in_world bm
    ((if check then _check_bm_quality true else ret tt) ;;
     (* Extract verts and faces from bmesh *)
     w <- get ;;
     let verts := map (vert_row scale_length) (BMesh.verts (World.bm w)) in
     faces <- lift (face_rows (BMesh.faces (World.bm w))) ;;
     (* Clean up *)
     modify (set_bm free) ;;
     ret (mas, verts, faces)).

End Program.

(** ** The order of the checks *)

Section Orders.

Context `{U : Utils}.

Local Open Scope py_scope.

(** The checks of [_check_bm_quality], in the order of its body. *)
Definition quality_checks (epsilon_len epsilon_area : Q) (protect : bool)
  : list (M World.t unit) :=
  [ _check_bm_manifold_verts epsilon_len epsilon_area protect;
    _check_bm_manifold_edges epsilon_len epsilon_area protect;
    _check_bm_degenerate_edges epsilon_len epsilon_area protect;
    _check_bm_degenerate_faces epsilon_len epsilon_area protect;
    _check_bm_loose_vertices epsilon_len epsilon_area protect;
    _check_bm_duplicate_vertices epsilon_len epsilon_area protect;
    _check_bm_normals epsilon_len epsilon_area protect ].

(** The validator as the specification words it: the same seven checks,
    normal consistency third. Used only to compare with
    [_check_bm_quality]. *)
Definition validate_spec_order (protect : bool) : M World.t unit :=
  w <- get ;;
  let epsilon_len :=
    Context.bf_config_min_edge_length (Scene.context (World.scene w)) in
  let epsilon_area :=
    Context.bf_config_min_face_area (Scene.context (World.scene w)) in
  _check_bm_manifold_verts epsilon_len epsilon_area protect ;;
  _check_bm_manifold_edges epsilon_len epsilon_area protect ;;
  _check_bm_normals epsilon_len epsilon_area protect ;;
  _check_bm_degenerate_edges epsilon_len epsilon_area protect ;;
  _check_bm_degenerate_faces epsilon_len epsilon_area protect ;;
  _check_bm_loose_vertices epsilon_len epsilon_area protect ;;
  _check_bm_duplicate_vertices epsilon_len epsilon_area protect.

(** The outcomes of a check that touches nothing: it returns, or it raises
    the exception of the object with some message, or it raises the
    error of a kd-tree asked for a negative radius or that of a vertex
    sequence indexed without its lookup table; the state is the one it
    started from. *)
Definition atomic_outcome (c : M World.t unit) (w : World.t) : Prop :=
  c w = (Ok tt, w)
  \/ (exists msg,
         c w = (Raise (BFException (Object.name (Scene.ob (World.scene w))) msg),
                w))
  \/ c w = (Raise (RuntimeError "negative radius given"), w)
  \/ c w = (Raise IndexError, w).

(** What [_raise_bad_geometry] leaves behind when it raises without
    [protect], from a state [w]: the object keeps its name, its material
    slots and its placement, has lost its modifiers and carries the bmesh
    as mesh data; the bmesh has been freed after it was written; the object
    is the active object, the only selected one, and in edit mode. *)
Definition left_for_editing (w w' : World.t) : Prop :=
  let ob := Scene.ob (World.scene w) in
  let ob' := Scene.ob (World.scene w') in
  let context' := Scene.context (World.scene w') in
  Object.name ob' = Object.name ob
  /\ Object.material_slots ob' = Object.material_slots ob
  /\ Object.matrix_world ob' = Object.matrix_world ob
  /\ Object.modifiers ob' = []
  /\ World.bm w' = free (Object.data ob')
  /\ Context.object context' = Some (Object.name ob)
  /\ Context.selected_objects context' = [Object.name ob]
  /\ Context.mode context' = EDIT.

(** An outcome of a check started from [w] that, when it is the
    exception of an object, comes with a host prepared for editing. *)
Definition edits_on_failure (w : World.t) (out : result unit * World.t)
  : Prop :=
  forall ob_name msg,
    fst out = Raise (BFException ob_name msg) -> left_for_editing w (snd out).

(** A check that leaves the scene as it found it. *)
Definition keeps_scene {A} (m : M World.t A) : Prop :=
  forall w, World.scene (snd (m w)) = World.scene w.

End Orders.

(** ** Predicates of the statements *)

Create HintDb frame.

(** [a] and [b] are within [radius] of each other. *)
Definition within (radius : Q) (a b : BMVert.t) : Prop :=
  len_squared (BMVert.co a) (BMVert.co b) <= radius * radius.

(** The indices that [find_range] finds around [co]. *)
Definition group_of (verts : list BMVert.t) (radius : Q) (co : Vector.t)
  : list nat :=
  handles_where
    (fun v => Qle_bool (len_squared co (BMVert.co v)) (radius * radius)) verts.

(** Vertex [i] of [vs] has another vertex within [radius]. *)
Definition has_neighbour (radius : Q) (vs : list BMVert.t) (i : nat) : Prop :=
  exists j vi vj,
    i <> j /\ nth_error vs i = Some vi /\ nth_error vs j = Some vj
    /\ within radius vi vj.

(** A slot that [_get_materials] accepts: bound to an exported material. *)
Definition slot_exported (slot : MaterialSlot.t) : Prop :=
  exists ma, MaterialSlot.material slot = Some ma
             /\ Material.bf_surf_export ma = true.

(** The name a slot contributes to the materials list. *)
Definition slot_name (slot : MaterialSlot.t) : string :=
  match MaterialSlot.material slot with
  | Some ma => Material.name ma
  | None => EmptyString
  end.




(** The row that [get_trisurface] exports for a face: its first three
    vertices and its material slot, counted from 1. *)
Definition row_of_face (f : BMFace.t) (row : nat * nat * nat * nat) : Prop :=
  exists v0 v1 v2 rest,
    BMFace.verts f = v0 :: v1 :: v2 :: rest
    /\ row = (v0 + 1, v1 + 1, v2 + 1, BMFace.material_index f + 1)%nat.

(** A mesh on which none of the seven checks finds an offending element. *)
Definition clean_mesh (epsilon_len epsilon_area : Q) (bm : BMesh.t) : Prop :=
  Forall (fun v => BMVert.is_manifold v = true) (BMesh.verts bm)
  /\ Forall (fun e => BMEdge.is_manifold e = true) (BMesh.edges bm)
  /\ Forall (fun e => ~ BMEdge.calc_length e <= epsilon_len) (BMesh.edges bm)
  /\ Forall (fun f => ~ BMFace.calc_area f <= epsilon_area) (BMesh.faces bm)
  /\ Forall (fun v => BMVert.link_edges v <> []) (BMesh.verts bm)
  /\ (forall i, ~ has_neighbour epsilon_len (BMesh.verts bm) i)
  /\ Forall (fun e => BMEdge.is_contiguous e = true) (BMesh.edges bm).


(** The groups that the duplicate-vertex check gathers, one after the
    other: around each vertex the vertices within [radius] of it, when
    they are more than one. *)
Definition reported_groups (verts : list BMVert.t) (radius : Q) : list nat :=
  flat_map (fun v => if 1 <? List.length (group_of verts radius (BMVert.co v))
                     then group_of verts radius (BMVert.co v) else [])
           verts.

(** The two vertices of edge [j] of [bm], the vertices of face [k] and
    its edges. *)
Definition ends_at (bm : BMesh.t) (j : nat) : list nat :=
  match nth_error (BMesh.edges bm) j with
  | Some e => [fst (BMEdge.verts e); snd (BMEdge.verts e)]
  | None => []
  end.

Definition loop_at (bm : BMesh.t) (k : nat) : list nat :=
  match nth_error (BMesh.faces bm) k with
  | Some f => BMFace.verts f
  | None => []
  end.

Definition around_at (bm : BMesh.t) (k : nat) : list nat :=
  match nth_error (BMesh.faces bm) k with
  | Some f => BMFace.edges f
  | None => []
  end.

(** The select mode that [_raise_bad_geometry] asks of the editor: that
    of the vertices when there are bad vertices, else that of the edges
    when there are bad edges, else that of the faces. *)
Definition select_type_of (bad_verts bad_edges bad_faces : list nat)
  : SelectType :=
  if nonempty bad_verts then VERT
  else if nonempty bad_edges then EDGE else FACE.

(** A computation that leaves the state as it found it. *)
Definition keeps_state {S A} (m : M S A) : Prop :=
  forall s, snd (m s) = s.

(** ** A small executable host

    An instance of the host interface on which the program runs on
    concrete scenes. Matrices are translations. The tree of a bmesh keeps,
    for each face, the bounding box of its vertices grown by [epsilon]
    and the vertex positions; two triangles overlap when their boxes meet
    and they have no vertex position in common. [recalc_face_normals]
    reverses the winding and the normal of every face of a mesh whose
    signed volume is negative. [get_object_bmesh] gives the mesh data of
    the object moved by [matrix] and, with [world], by [ob.matrix_world],
    with the lookup table of its vertices when [lookup] is set and without
    it otherwise; the meshes of the scenes below are triangle meshes. *)

Module Ref.

Definition vadd (a b : Vector.t) : Vector.t :=
  Vector.mk (Vector.x a + Vector.x b) (Vector.y a + Vector.y b)
            (Vector.z a + Vector.z b)%float.

Definition vneg (a : Vector.t) : Vector.t :=
  Vector.mk (- Vector.x a) (- Vector.y a) (- Vector.z a)%float.

Definition veqb (a b : Vector.t) : bool :=
  PrimFloat.eqb (Vector.x a) (Vector.x b)
  && PrimFloat.eqb (Vector.y a) (Vector.y b)
  && PrimFloat.eqb (Vector.z a) (Vector.z b).

Definition qmin (a b : Q) : Q := if Qle_bool a b then a else b.

Definition qmax (a b : Q) : Q := if Qle_bool a b then b else a.

Definition transform (t : Vector.t) (bm : BMesh.t) : BMesh.t :=
  BMesh.mk
    (map (fun v => BMVert.mk (vadd (BMVert.co v) t) (BMVert.is_manifold v)
                             (BMVert.link_edges v) (BMVert.select v))
         (BMesh.verts bm))
    (BMesh.edges bm) (BMesh.faces bm) (BMesh.is_valid bm)
    (BMesh.verts_lookup bm).

Definition zero : Vector.t := Vector.mk 0 0 0.

Definition positions (bm : BMesh.t) (f : BMFace.t) : list Vector.t :=
  map (fun i => match nth_error (BMesh.verts bm) i with
                | Some v => BMVert.co v
                | None => zero
                end)
      (BMFace.verts f).

(** The point a position stands for. *)
Definition point : Type := Q * Q * Q.

Definition point_of (v : Vector.t) : point :=
  (to_Q (Vector.x v), to_Q (Vector.y v), to_Q (Vector.z v)).

Definition pointwise (f : Q -> Q -> Q) (a b : point) : point :=
  match a, b with
  | (ax, ay, az), (bx, by_, bz) => (f ax bx, f ay by_, f az bz)
  end.

Definition below (a b : point) : bool :=
  match a, b with
  | (ax, ay, az), (bx, by_, bz) =>
      Qle_bool ax bx && Qle_bool ay by_ && Qle_bool az bz
  end.

Definition box : Type := point * point.

Definition bbox (pts : list Vector.t) : box :=
  match map point_of pts with
  | [] => ((0, 0, 0), (0, 0, 0))
  | p :: rest =>
      fold_left
        (fun b q => (pointwise qmin (fst b) q, pointwise qmax (snd b) q))
        rest (p, p)
  end.

Definition grow (epsilon : Q) (b : box) : box :=
  (pointwise Qminus (fst b) (epsilon, epsilon, epsilon),
   pointwise Qplus (snd b) (epsilon, epsilon, epsilon)).

Definition meet (a b : box) : bool :=
  below (fst a) (snd b) && below (fst b) (snd a).

Definition leaf : Type := box * list Vector.t.

Definition tree_of (bm : BMesh.t) (epsilon : Q) : list leaf :=
  map (fun f => (grow epsilon (bbox (positions bm f)), positions bm f))
      (BMesh.faces bm).

Definition share (a b : list Vector.t) : bool :=
  existsb (fun p => existsb (veqb p) b) a.

Definition overlap_of (t1 t2 : list leaf) : list (nat * nat) :=
  flat_map
    (fun ia =>
       map (fun jb => (fst ia, fst jb))
           (filter (fun jb => meet (fst (snd ia)) (fst (snd jb))
                              && negb (share (snd (snd ia)) (snd (snd jb))))
                   (enumerate t2)))
    (enumerate t1).

Definition det3 (a b c : Vector.t) : Q :=
  match point_of a, point_of b, point_of c with
  | (ax, ay, az), (bx, by_, bz), (cx, cy, cz) =>
      ax * (by_ * cz - bz * cy) - ay * (bx * cz - bz * cx)
      + az * (bx * cy - by_ * cx)
  end.

Definition signed_volume (bm : BMesh.t) : Q :=
  fold_left
    (fun acc f =>
       match positions bm f with
       | a :: b :: c :: _ => acc + det3 a b c
       | _ => acc
       end)
    (BMesh.faces bm) 0.

Definition flip (f : BMFace.t) : BMFace.t :=
  BMFace.mk (rev (BMFace.verts f)) (rev (BMFace.edges f))
            (BMFace.material_index f)
            (vneg (BMFace.normal f)) (BMFace.calc_area f) (BMFace.select f).

Definition recalc (bm : BMesh.t) : BMesh.t :=
  if Qle_bool 0 (signed_volume bm) then bm
  else BMesh.mk (BMesh.verts bm) (BMesh.edges bm)
                (map flip (BMesh.faces bm)) (BMesh.is_valid bm)
                (BMesh.verts_lookup bm).

(** The flush of the editor. In vertex mode an edge or a face all of
    whose vertices are selected becomes selected; in edge mode the
    selected vertices are those of the selected edges and the selected
    faces those whose edges are all selected; in face mode the selected
    vertices and edges are those of the selected faces. *)
Definition flush (t : SelectType) (bm : BMesh.t) : BMesh.t :=
  match t with
  | VERT =>
      BMesh.mk
        (BMesh.verts bm)
        (map (fun e =>
                BMEdge.set_select
                  (BMEdge.select e
                   || vert_selected bm (fst (BMEdge.verts e))
                      && vert_selected bm (snd (BMEdge.verts e))) e)
             (BMesh.edges bm))
        (map (fun f =>
                BMFace.set_select
                  (BMFace.select f
                   || forallb (vert_selected bm) (BMFace.verts f))
                  f)
             (BMesh.faces bm))
        (BMesh.is_valid bm) (BMesh.verts_lookup bm)
  | EDGE =>
      BMesh.mk
        (map (fun iv =>
                BMVert.set_select
                  (existsb (fun e => BMEdge.select e
                                     && ((fst (BMEdge.verts e) =? fst iv)
                                         || (snd (BMEdge.verts e) =? fst iv)))
                           (BMesh.edges bm))
                  (snd iv))
             (enumerate (BMesh.verts bm)))
        (BMesh.edges bm)
        (map (fun f =>
                BMFace.set_select
                  (forallb (edge_selected bm) (BMFace.edges f)) f)
             (BMesh.faces bm))
        (BMesh.is_valid bm) (BMesh.verts_lookup bm)
  | FACE =>
      BMesh.mk
        (map (fun iv =>
                BMVert.set_select
                  (existsb (fun f =>
                              BMFace.select f
                              && existsb (Nat.eqb (fst iv)) (BMFace.verts f))
                           (BMesh.faces bm))
                  (snd iv))
             (enumerate (BMesh.verts bm)))
        (map (fun ie =>
                BMEdge.set_select
                  (existsb (fun f =>
                              BMFace.select f
                              && existsb (Nat.eqb (fst ie)) (BMFace.edges f))
                           (BMesh.faces bm))
                  (snd ie))
             (enumerate (BMesh.edges bm)))
        (BMesh.faces bm)
        (BMesh.is_valid bm) (BMesh.verts_lookup bm)
  end.

Definition host : Host :=
  {| Matrix := Vector.t;
     inverted := fun m => Some (vneg m);
     matmul := vadd;
     BVHTree := list leaf;
     FromBMesh := tree_of;
     overlap := overlap_of;
     recalc_face_normals := recalc;
     select_flush_mode := flush |}.

Definition utils : @Utils host :=
  {| get_object_bmesh :=
       fun (context : Context.t) (ob : @Object.t host)
           (matrix : option (@Matrix host))
           (world triangulate lookup : option bool) =>
         let bm := Object.data ob in
         let bm := match matrix with
                   | Some m => transform m bm
                   | None => bm
                   end in
         let bm := match world with
                   | Some true => transform (Object.matrix_world ob) bm
                   | _ => bm
                   end in
         let bm := match lookup with
                   | Some true => BMesh.set_verts_lookup true bm
                   | _ => BMesh.set_verts_lookup false bm
                   end in
         Ok bm |}.

End Ref.

(** ** Concrete scenes *)

Module Scenes.

#[local] Existing Instance Ref.host.
#[local] Existing Instance Ref.utils.

Definition vert (x y z : float) (link_edges : list nat) : BMVert.t :=
  BMVert.mk (Vector.mk x y z) true link_edges false.

Definition edge (a b : nat) (is_contiguous : bool) (len : Q) : BMEdge.t :=
  BMEdge.mk (a, b) true is_contiguous len false.

Definition face (a b c : nat) (edges : list nat) (nx ny nz : float)
  (area : Q) : BMFace.t :=
  BMFace.mk [a; b; c] edges 0 (Vector.mk nx ny nz) area false.

Definition d_0_0005 : float := 0x1.0624dd2f1a9fcp-11.
Definition d_0_5774 : float := 0x1.27a0f9096bb99p-1.
Definition d_0_7071 : float := 0x1.6a0902de00d1bp-1.

(** The tetrahedron on the origin and the three unit points, wound
    outwards. Lengths and areas are the host's floats. *)
Definition tetra : BMesh.t :=
  BMesh.mk
    [ vert 0 0 0 [0; 1; 2]; vert 1 0 0 [0; 3; 4];
      vert 0 1 0 [1; 3; 5]; vert 0 0 1 [2; 4; 5] ]%nat
    [ edge 0 1 true 1; edge 0 2 true 1; edge 0 3 true 1;
      edge 1 2 true (14142 # 10000); edge 1 3 true (14142 # 10000);
      edge 2 3 true (14142 # 10000) ]
    [ face 0 2 1 [1; 3; 0]%nat 0 0 (-1) (1 # 2);
      face 0 1 3 [0; 4; 2]%nat 0 (-1) 0 (1 # 2);
      face 0 3 2 [2; 5; 1]%nat (-1) 0 0 (1 # 2);
      face 1 2 3 [3; 5; 4]%nat d_0_5774 d_0_5774 d_0_5774 (866 # 1000) ]
    true true.

(** The same tetrahedron turned inside out: every face wound inwards,
    every edge still contiguous. *)
Definition tetra_inside_out : BMesh.t :=
  BMesh.mk (BMesh.verts tetra) (BMesh.edges tetra)
           (map Ref.flip (BMesh.faces tetra)) true true.

(** A tetrahedron whose vertex 1 sits 1/2000 away from vertex 0 and
    whose face 3 is wound against its neighbours. *)
Definition tetra_short_flipped : BMesh.t :=
  BMesh.mk
    [ vert 0 0 0 [0; 1; 2]; vert d_0_0005 0 0 [0; 3; 4];
      vert 0 1 0 [1; 3; 5]; vert 0 0 1 [2; 4; 5] ]%nat
    [ edge 0 1 true (1 # 2000); edge 0 2 true 1; edge 0 3 true 1;
      edge 1 2 false 1; edge 1 3 false 1;
      edge 2 3 false (14142 # 10000) ]
    [ face 0 2 1 [1; 3; 0]%nat 0 0 (-1) (1 # 4000);
      face 0 1 3 [0; 4; 2]%nat 0 (-1) 0 (1 # 4000);
      face 0 3 2 [2; 5; 1]%nat (-1) 0 0 (1 # 2);
      face 3 2 1 [5; 3; 4]%nat (-1) 0 0 (1 # 2) ]
    true true.



(** Two tetrahedra, each closed, with a corner at the origin: vertices
    0 and 4 are two vertices at the same place. *)
Definition two_tetras : BMesh.t :=
  BMesh.mk
    [ vert 0 0 0 [0; 1; 2]; vert 1 0 0 [0; 3; 4];
      vert 0 1 0 [1; 3; 5]; vert 0 0 1 [2; 4; 5];
      vert 0 0 0 [6; 7; 8]; vert (-1) 0 0 [6; 9; 10];
      vert 0 (-1) 0 [7; 9; 11]; vert 0 0 (-1) [8; 10; 11] ]%nat
    [ edge 0 1 true 1; edge 0 2 true 1; edge 0 3 true 1;
      edge 1 2 true (14142 # 10000); edge 1 3 true (14142 # 10000);
      edge 2 3 true (14142 # 10000);
      edge 4 5 true 1; edge 4 6 true 1; edge 4 7 true 1;
      edge 5 6 true (14142 # 10000); edge 5 7 true (14142 # 10000);
      edge 6 7 true (14142 # 10000) ]
    [ face 0 2 1 [1; 3; 0]%nat 0 0 (-1) (1 # 2);
      face 0 1 3 [0; 4; 2]%nat 0 (-1) 0 (1 # 2);
      face 0 3 2 [2; 5; 1]%nat (-1) 0 0 (1 # 2);
      face 1 2 3 [3; 5; 4]%nat d_0_5774 d_0_5774 d_0_5774 (866 # 1000);
      face 4 5 6 [6; 9; 7]%nat 0 0 1 (1 # 2);
      face 4 7 5 [8; 10; 6]%nat 0 1 0 (1 # 2);
      face 4 6 7 [7; 11; 8]%nat 1 0 0 (1 # 2);
      face 5 7 6 [10; 11; 9]%nat (- d_0_5774) (- d_0_5774) (- d_0_5774)
           (866 # 1000) ]
    true true.

(** Two triangles that cross each other. *)
Definition crossed : BMesh.t :=
  BMesh.mk
    [ BMVert.mk (Vector.mk 0 0 0) false [0; 2]%nat false;
      BMVert.mk (Vector.mk 2 0 0) false [0; 1]%nat false;
      BMVert.mk (Vector.mk 0 2 0) false [1; 2]%nat false;
      BMVert.mk (Vector.mk 0.5 0.5 (-1)) false [3; 5]%nat false;
      BMVert.mk (Vector.mk 0.5 0.5 1) false [3; 4]%nat false;
      BMVert.mk (Vector.mk 2 2 0) false [4; 5]%nat false ]
    [ BMEdge.mk (0, 1)%nat false true 2 false;
      BMEdge.mk (1, 2)%nat false true (28284 # 10000) false;
      BMEdge.mk (2, 0)%nat false true 2 false;
      BMEdge.mk (3, 4)%nat false true 2 false;
      BMEdge.mk (4, 5)%nat false true (23452 # 10000) false;
      BMEdge.mk (5, 3)%nat false true (23452 # 10000) false ]
    [ face 0 1 2 [0; 1; 2]%nat 0 0 1 2;
      face 3 4 5 [3; 4; 5]%nat d_0_7071 (- d_0_7071) 0 (21213 # 10000) ]
    true true.

Definition steel : Material.t := Material.mk "Steel" true.

Definition hidden : Material.t := Material.mk "Hidden" false.

Definition context0 : Context.t :=
  Context.mk (1 # 1000) (1 # 100000) None OBJECT [] VERT None.

(** A context whose active object, the crossed triangles, is being
    edited. *)
Definition context_editing : Context.t :=
  Context.mk (1 # 1000) (1 # 100000) (Some "Cube"%string) EDIT
             ["Cube"%string] VERT (Some crossed).

Definition object_of (slots : list MaterialSlot.t) (data : BMesh.t)
  (matrix_world : Vector.t) : Object.t :=
  Object.mk "Cube" slots ["Bevel"%string] data matrix_world.

Definition one_slot : list MaterialSlot.t :=
  [MaterialSlot.mk (Some steel)].

Definition scene_tetra : Scene.t :=
  Scene.mk context0 (object_of one_slot tetra Ref.zero).

Definition world_tetra : World.t :=
  World.mk scene_tetra tetra.

(** The tetrahedron under tolerances half as large. *)
Definition world_tetra_tight : World.t :=
  World.mk
    (Scene.mk (Context.mk (1 # 2000) (1 # 200000) None OBJECT [] VERT None)
              (object_of one_slot tetra Ref.zero))
    tetra.

Definition world_inside_out : World.t :=
  World.mk (Scene.mk context0 (object_of one_slot tetra_inside_out Ref.zero))
           tetra_inside_out.

Definition world_short_flipped : World.t :=
  World.mk
    (Scene.mk context0 (object_of one_slot tetra_short_flipped Ref.zero))
    tetra_short_flipped.



Definition scene_two_tetras : Scene.t :=
  Scene.mk context0 (object_of one_slot two_tetras Ref.zero).

(** Two slots bound to the same material. *)
Definition scene_two_slots : Scene.t :=
  Scene.mk context0
           (object_of [MaterialSlot.mk (Some steel); MaterialSlot.mk (Some steel)]
                      tetra Ref.zero).

(** A slot bound to a material that is not exported, then an empty slot. *)
Definition scene_hidden_then_empty : Scene.t :=
  Scene.mk context0
           (object_of [MaterialSlot.mk (Some hidden); MaterialSlot.mk None]
                      tetra Ref.zero).

Definition scene_no_slot : Scene.t :=
  Scene.mk context0 (object_of [] tetra Ref.zero).

(** The crossed triangles under the editor. *)
Definition scene_crossed_editing : Scene.t :=
  Scene.mk context_editing (object_of one_slot crossed Ref.zero).

(** Another object, shifted by a quarter along each axis, whose own mesh
    lies a hundred units away. *)
Definition far_away : Object.t :=
  Object.mk "Far" one_slot []
            (Ref.transform (Vector.mk 100 100 100) tetra)
            (Vector.mk 0.25 0.25 0.25).

(** The same object with the mesh of a tetrahedron next to the origin. *)
Definition near_by : Object.t :=
  Object.mk "Far" one_slot [] tetra (Vector.mk 0.25 0.25 0.25).

End Scenes.


(** * Properties *)

Section Properties.

Context `{U : Utils}.

(** ** Materials *)

Lemma _get_materials_loop_exported (ob_name : string)
  (slots : list MaterialSlot.t) :
  Forall slot_exported slots ->
  forall mas,
    _get_materials_loop ob_name slots mas = Ok (mas ++ map slot_name slots).
Proof.
  induction 1 as [|slot rest Hslot _ IH]; intros mas; simpl.
  - now rewrite app_nil_r.
  - destruct Hslot as (ma & Hma & Hexp).
    unfold slot_name at 1. rewrite Hma, Hexp. simpl.
    rewrite IH, <- app_assoc. reflexivity.
Qed.

Lemma _get_materials_loop_ok_inv (ob_name : string)
  (slots : list MaterialSlot.t) :
  forall mas mas',
    _get_materials_loop ob_name slots mas = Ok mas' ->
    Forall slot_exported slots /\ mas' = mas ++ map slot_name slots.
Proof.
  induction slots as [|slot rest IH]; intros mas mas' Hrun; simpl in *.
  - inversion Hrun. now rewrite app_nil_r.
  - destruct (MaterialSlot.material slot) as [ma|] eqn:Hma; [|discriminate].
    destruct (Material.bf_surf_export ma) eqn:Hexp; simpl in Hrun;
      [|discriminate].
    apply IH in Hrun as [Hrest ->]. split.
    + constructor; [exists ma; auto | exact Hrest].
    + unfold slot_name at 2. rewrite Hma, <- app_assoc. reflexivity.
Qed.

Lemma _get_materials_loop_first_bad (ob_name : string)
  (good : list MaterialSlot.t) (slot : MaterialSlot.t)
  (rest : list MaterialSlot.t) :
  Forall slot_exported good ->
  forall mas,
    _get_materials_loop ob_name (good ++ slot :: rest) mas =
    _get_materials_loop ob_name (slot :: rest) (mas ++ map slot_name good).
Proof.
  remember (slot :: rest) as tail eqn:Htail. clear Htail.
  induction 1 as [|g good' Hg _ IH]; intros mas.
  - simpl. now rewrite app_nil_r.
  - destruct Hg as (ma & Hma & Hexp). simpl.
    unfold slot_name at 1. rewrite Hma, Hexp. simpl.
    rewrite IH, <- app_assoc. reflexivity.
Qed.

Lemma _get_materials_ok_inv (ob : Object.t) (mas : list string) :
  _get_materials ob = Ok mas ->
  Forall slot_exported (Object.material_slots ob)
  /\ mas = map slot_name (Object.material_slots ob).
Proof.
  unfold _get_materials.
  destruct (List.length (Object.material_slots ob) =? 0)%nat; [discriminate|].
  intros Hrun. now apply _get_materials_loop_ok_inv in Hrun.
Qed.

Lemma get_trisurface_materials_raise (scale_length : float) (check terrain : bool)
  (sc : Scene.t) (e : exn) :
  _get_materials (Scene.ob sc) = Raise e ->
  get_trisurface scale_length check terrain sc = (Raise e, sc).
Proof.
  intros Hmas. unfold get_trisurface, bind, get, lift. now rewrite Hmas.
Qed.

Lemma get_trisurface_ok_materials (scale_length : float) (check terrain : bool)
  (sc sc' : Scene.t) (mas : list string) verts faces :
  get_trisurface scale_length check terrain sc = (Ok (mas, verts, faces), sc') ->
  _get_materials (Scene.ob sc) = Ok mas.
Proof.
  unfold get_trisurface, bind, get, lift, in_world, ret, modify.
  destruct (_get_materials (Scene.ob sc)) as [mas0|e]; [|discriminate].
  destruct (get_object_bmesh _ _ _ _ _ _) as [bm|e]; [|discriminate].
  destruct ((if check then _check_bm_quality true else _) _) as [[[]|e] w];
    [|discriminate].
  destruct (face_rows _) as [rows|e]; [|discriminate].
  intros Hrun. inversion Hrun. reflexivity.
Qed.

(** ** Sequencing *)

Lemma bind_ok {S A B} (m : M S A) (k : A -> M S B) (s s' : S) (a : A) :
  m s = (Ok a, s') -> bind m k s = k a s'.
Proof. intros Hm. unfold bind. now rewrite Hm. Qed.

Lemma bind_raise {S A B} (m : M S A) (k : A -> M S B) (s s' : S) (e : exn) :
  m s = (Raise e, s') -> bind m k s = (Raise e, s').
Proof. intros Hm. unfold bind. now rewrite Hm. Qed.

(** ** Raising *)

Lemma _raise_bad_geometry_protect (msg : string)
  (bad_verts bad_edges bad_faces : list nat) (w : World.t) :
  _raise_bad_geometry msg true bad_verts bad_edges bad_faces w =
  (Raise (BFException (Object.name (Scene.ob (World.scene w))) msg), w).
Proof. reflexivity. Qed.

Lemma _raise_bad_geometry_raises (msg : string) (protect : bool)
  (bad_verts bad_edges bad_faces : list nat) (w : World.t) :
  exists e w',
    _raise_bad_geometry msg protect bad_verts bad_edges bad_faces w =
    (Raise e, w').
Proof.
  destruct protect.
  - rewrite _raise_bad_geometry_protect. eauto.
  - unfold _raise_bad_geometry, bind, get, modify, ret, raise.
    destruct (nonempty bad_faces), (nonempty bad_edges), (nonempty bad_verts);
      eauto.
Qed.

Lemma _raise_bad_geometry_never_ok (msg : string) (protect : bool)
  (bad_verts bad_edges bad_faces : list nat) (w : World.t) :
  fst (_raise_bad_geometry msg protect bad_verts bad_edges bad_faces w)
  <> Ok tt.
Proof.
  destruct (_raise_bad_geometry_raises msg protect bad_verts bad_edges
                                       bad_faces w) as (e & w' & ->).
  discriminate.
Qed.

(** ** The checks one by one *)

Ltac pass_or_raise :=
  match goal with
  | |- context [nonempty ?bad] =>
      destruct (nonempty bad); unfold ret; simpl; intros Hpass;
      [ exfalso; revert Hpass; apply _raise_bad_geometry_never_ok
      | reflexivity ]
  end.

Lemma _check_bm_manifold_verts_pass (el ea : Q) (protect : bool) (w : World.t) :
  fst (_check_bm_manifold_verts el ea protect w) = Ok tt ->
  _check_bm_manifold_verts el ea protect w = (Ok tt, w).
Proof. unfold _check_bm_manifold_verts, bind, get. pass_or_raise. Qed.

Lemma _check_bm_manifold_edges_pass (el ea : Q) (protect : bool) (w : World.t) :
  fst (_check_bm_manifold_edges el ea protect w) = Ok tt ->
  _check_bm_manifold_edges el ea protect w = (Ok tt, w).
Proof. unfold _check_bm_manifold_edges, bind, get. pass_or_raise. Qed.

Lemma _check_bm_degenerate_edges_pass (el ea : Q) (protect : bool)
  (w : World.t) :
  fst (_check_bm_degenerate_edges el ea protect w) = Ok tt ->
  _check_bm_degenerate_edges el ea protect w = (Ok tt, w).
Proof. unfold _check_bm_degenerate_edges, bind, get. pass_or_raise. Qed.

Lemma _check_bm_degenerate_faces_pass (el ea : Q) (protect : bool)
  (w : World.t) :
  fst (_check_bm_degenerate_faces el ea protect w) = Ok tt ->
  _check_bm_degenerate_faces el ea protect w = (Ok tt, w).
Proof. unfold _check_bm_degenerate_faces, bind, get. pass_or_raise. Qed.

Lemma _check_bm_loose_vertices_pass (el ea : Q) (protect : bool) (w : World.t) :
  fst (_check_bm_loose_vertices el ea protect w) = Ok tt ->
  _check_bm_loose_vertices el ea protect w = (Ok tt, w).
Proof. unfold _check_bm_loose_vertices, bind, get. pass_or_raise. Qed.

Lemma _check_bm_duplicate_vertices_pass (el ea : Q) (protect : bool)
  (w : World.t) :
  fst (_check_bm_duplicate_vertices el ea protect w) = Ok tt ->
  _check_bm_duplicate_vertices el ea protect w = (Ok tt, w).
Proof.
  unfold _check_bm_duplicate_vertices, bind, get.
  destruct (duplicate_vertices (World.bm w) el) as [bad|e].
  - pass_or_raise.
  - discriminate.
Qed.

Lemma _check_bm_normals_pass (el ea : Q) (protect : bool) (w : World.t) :
  fst (_check_bm_normals el ea protect w) = Ok tt ->
  _check_bm_normals el ea protect w =
  (Ok tt, if protect then w else set_bm recalc_face_normals w).
Proof.
  unfold _check_bm_normals, bind, get.
  match goal with |- context [nonempty ?bad] => destruct (nonempty bad) end.
  - destruct (_raise_bad_geometry_raises
                (msg_normals
                   (List.length
                      (handles_where
                         (fun edge => negb (BMEdge.is_contiguous edge))
                         (BMesh.edges (World.bm w)))))
                protect []
                (handles_where (fun edge => negb (BMEdge.is_contiguous edge))
                               (BMesh.edges (World.bm w)))
                [] w) as (e & w' & ->).
    discriminate.
  - unfold ret. destruct protect; reflexivity.
Qed.

(** ** The order of the checks and the first failure *)

Lemma quality_checks_pass_frame (el ea : Q) (protect : bool) (w : World.t)
  (j : nat) (c : M World.t unit) :
  (j < 6)%nat ->
  nth_error (quality_checks el ea protect) j = Some c ->
  fst (c w) = Ok tt ->
  c w = (Ok tt, w).
Proof.
  intros Hj Hnth Hpass.
  do 6 (destruct j as [|j];
        [ injection Hnth as <-;
          eauto using _check_bm_manifold_verts_pass,
            _check_bm_manifold_edges_pass, _check_bm_degenerate_edges_pass,
            _check_bm_degenerate_faces_pass, _check_bm_loose_vertices_pass,
            _check_bm_duplicate_vertices_pass
        | ]).
  lia.
Qed.

(** C1, as the code has it: [_check_bm_quality] runs manifold vertices,
    manifold edges, degenerate edges, degenerate faces, loose vertices,
    duplicate vertices and normal consistency, in this order, and stops at
    the first check that fails: when the checks before check [k] pass and
    check [k] raises, the validator raises the same exception and leaves
    the state that check [k] left; nothing of a later check is run. *)
Theorem _check_bm_quality_first_failure (protect : bool) (w w' : World.t)
  (k : nat) (c : M World.t unit) (e : exn) :
  let epsilon_len :=
    Context.bf_config_min_edge_length (Scene.context (World.scene w)) in
  let epsilon_area :=
    Context.bf_config_min_face_area (Scene.context (World.scene w)) in
  nth_error (quality_checks epsilon_len epsilon_area protect) k = Some c ->
  (forall j cj,
      (j < k)%nat ->
      nth_error (quality_checks epsilon_len epsilon_area protect) j = Some cj ->
      fst (cj w) = Ok tt) ->
  c w = (Raise e, w') ->
  _check_bm_quality protect w = (Raise e, w').
Proof.
  intros el ea Hk Hbefore Hfail.
  assert (Hframe : forall j cj,
             (j < k)%nat -> (j < 6)%nat ->
             nth_error (quality_checks el ea protect) j = Some cj ->
             cj w = (Ok tt, w)).
  { intros j cj Hjk Hj6 Hnth.
    eapply quality_checks_pass_frame; eauto. }
  unfold _check_bm_quality. fold el ea.
  rewrite (bind_ok get _ w w w) by reflexivity.
  do 7 (destruct k as [|k];
        [ injection Hk as <-;
          try rewrite (bind_ok _ _ w w tt
                         (Hframe 0%nat _ ltac:(lia) ltac:(lia) eq_refl));
          try rewrite (bind_ok _ _ w w tt
                         (Hframe 1%nat _ ltac:(lia) ltac:(lia) eq_refl));
          try rewrite (bind_ok _ _ w w tt
                         (Hframe 2%nat _ ltac:(lia) ltac:(lia) eq_refl));
          try rewrite (bind_ok _ _ w w tt
                         (Hframe 3%nat _ ltac:(lia) ltac:(lia) eq_refl));
          try rewrite (bind_ok _ _ w w tt
                         (Hframe 4%nat _ ltac:(lia) ltac:(lia) eq_refl));
          try rewrite (bind_ok _ _ w w tt
                         (Hframe 5%nat _ ltac:(lia) ltac:(lia) eq_refl));
          first [ exact Hfail | apply bind_raise; exact Hfail ]
        | ]).
  destruct k; discriminate.
Qed.

(** ** Frames: computations that leave the state, or the scene, alone *)


Lemma keeps_state_bind {S A B} (m : M S A) (k : A -> M S B) :
  keeps_state m -> (forall a, keeps_state (k a)) -> keeps_state (bind m k).
Proof.
  intros Hm Hk s. unfold bind. specialize (Hm s).
  destruct (m s) as [[a|e] s']; simpl in Hm; subst s'.
  - apply Hk.
  - reflexivity.
Qed.

Lemma keeps_scene_bind {A B} (m : M World.t A) (k : A -> M World.t B) :
  keeps_scene m -> (forall a, keeps_scene (k a)) -> keeps_scene (bind m k).
Proof.
  intros Hm Hk w. unfold bind. specialize (Hm w).
  destruct (m w) as [[a|e] w1]; simpl in Hm.
  - rewrite Hk. exact Hm.
  - exact Hm.
Qed.

Lemma keeps_state_scene {A} (m : M World.t A) :
  keeps_state m -> keeps_scene m.
Proof. intros Hm w. now rewrite Hm. Qed.

Lemma keeps_state_get {S} : keeps_state (@get S).
Proof. intros s. reflexivity. Qed.

Lemma keeps_state_ret {S A} (a : A) : keeps_state (@ret S A a).
Proof. intros s. reflexivity. Qed.

Lemma keeps_state_raise {S A} (e : exn) : keeps_state (@raise S A e).
Proof. intros s. reflexivity. Qed.

Lemma keeps_state_lift {S A} (r : result A) : keeps_state (@lift S A r).
Proof. intros s. reflexivity. Qed.

Lemma keeps_scene_set_bm (f : BMesh.t -> BMesh.t) :
  keeps_scene (modify (set_bm f)).
Proof. intros w. reflexivity. Qed.

Lemma keeps_state_raise_protect (msg : string)
  (bad_verts bad_edges bad_faces : list nat) :
  keeps_state (_raise_bad_geometry msg true bad_verts bad_edges bad_faces).
Proof. intros w. reflexivity. Qed.

#[local] Hint Resolve keeps_state_get keeps_state_ret keeps_state_raise
  keeps_state_lift keeps_state_raise_protect : frame.

Ltac frame_check :=
  apply keeps_state_bind; [auto with frame|]; intros w;
  match goal with
  | |- context [nonempty ?bad] => destruct (nonempty bad)
  end; auto with frame.

Lemma keeps_state_manifold_verts (el ea : Q) :
  keeps_state (_check_bm_manifold_verts el ea true).
Proof. unfold _check_bm_manifold_verts. frame_check. Qed.

Lemma keeps_state_manifold_edges (el ea : Q) :
  keeps_state (_check_bm_manifold_edges el ea true).
Proof. unfold _check_bm_manifold_edges. frame_check. Qed.

Lemma keeps_state_degenerate_edges (el ea : Q) :
  keeps_state (_check_bm_degenerate_edges el ea true).
Proof. unfold _check_bm_degenerate_edges. frame_check. Qed.

Lemma keeps_state_degenerate_faces (el ea : Q) :
  keeps_state (_check_bm_degenerate_faces el ea true).
Proof. unfold _check_bm_degenerate_faces. frame_check. Qed.

Lemma keeps_state_loose_vertices (el ea : Q) :
  keeps_state (_check_bm_loose_vertices el ea true).
Proof. unfold _check_bm_loose_vertices. frame_check. Qed.

Lemma keeps_state_duplicate_vertices (el ea : Q) :
  keeps_state (_check_bm_duplicate_vertices el ea true).
Proof.
  unfold _check_bm_duplicate_vertices.
  apply keeps_state_bind; [auto with frame|]. intros w.
  destruct (duplicate_vertices (World.bm w) el) as [bad|e]; auto with frame.
  destruct (nonempty bad); auto with frame.
Qed.

Lemma keeps_state_normals (el ea : Q) :
  keeps_state (_check_bm_normals el ea true).
Proof.
  unfold _check_bm_normals.
  apply keeps_state_bind; [auto with frame|]. intros w.
  apply keeps_state_bind; [|intros; simpl; auto with frame].
  match goal with
  | |- context [nonempty ?bad] => destruct (nonempty bad)
  end; auto with frame.
Qed.

#[local] Hint Resolve keeps_state_manifold_verts keeps_state_manifold_edges
  keeps_state_degenerate_edges keeps_state_degenerate_faces
  keeps_state_loose_vertices keeps_state_duplicate_vertices
  keeps_state_normals : frame.

Lemma keeps_state_quality : keeps_state (_check_bm_quality true).
Proof.
  unfold _check_bm_quality.
  apply keeps_state_bind; [auto with frame|]. intros w. cbv zeta.
  repeat (apply keeps_state_bind; [solve [auto with frame]|]; intros _).
  auto with frame.
Qed.

Lemma in_world_keeps_scene {A} (bm : BMesh.t) (m : M World.t A) :
  keeps_scene m -> keeps_state (in_world bm m).
Proof.
  intros Hm sc. unfold in_world. specialize (Hm (World.mk sc bm)).
  destruct (m (World.mk sc bm)) as [r w]. exact Hm.
Qed.

Lemma keeps_state_check_geom_quality : keeps_state (check_geom_quality true).
Proof.
  unfold check_geom_quality.
  apply keeps_state_bind; [auto with frame|]. intros sc.
  apply keeps_state_bind; [auto with frame|]. intros bm.
  apply in_world_keeps_scene, keeps_scene_bind.
  - apply keeps_state_scene, keeps_state_quality.
  - intros _. apply keeps_scene_set_bm.
Qed.

Lemma keeps_state_get_trisurface (scale_length : float) (check terrain : bool) :
  keeps_state (get_trisurface scale_length check terrain).
Proof.
  unfold get_trisurface.
  apply keeps_state_bind; [auto with frame|]. intros sc.
  apply keeps_state_bind; [auto with frame|]. intros mas.
  apply keeps_state_bind; [auto with frame|]. intros bm.
  apply in_world_keeps_scene, keeps_scene_bind.
  - apply keeps_state_scene.
    destruct check; [apply keeps_state_quality | auto with frame].
  - intros _. apply keeps_scene_bind; [apply keeps_state_scene; auto with frame|].
    intros w. apply keeps_scene_bind; [apply keeps_state_scene; auto with frame|].
    intros faces. apply keeps_scene_bind; [apply keeps_scene_set_bm|].
    intros _. apply keeps_state_scene. auto with frame.
Qed.

Lemma check_intersections_protect_scene (other_obs : list Object.t)
  (sc : Scene.t) :
  snd (check_intersections other_obs true sc) =
  Scene.mk (mode_set_object_if_active (Scene.context sc)) (Scene.ob sc).
Proof.
  unfold check_intersections.
  rewrite (bind_ok (modify _) _ sc _ tt eq_refl).
  match goal with |- snd (?m ?s) = _ => enough (Hm : keeps_state m) by apply Hm end.
  apply keeps_state_bind; [auto with frame|]. intros sc'. cbv zeta.
  apply keeps_state_bind; [auto with frame|]. intros bm.
  apply keeps_state_bind; [auto with frame|]. intros bad0.
  apply keeps_state_bind; [auto with frame|]. intros bad.
  destruct (nonempty bad); [|auto with frame].
  apply in_world_keeps_scene, keeps_state_scene. auto with frame.
Qed.

Lemma verts_at_raise (bm : BMesh.t) (vert_group : list nat) (e : exn) :
  verts_at bm vert_group = Raise e -> e = IndexError.
Proof.
  induction vert_group as [|i rest IH]; simpl; [discriminate|].
  destruct (BMesh.verts_lookup bm && (i <? List.length (BMesh.verts bm))).
  - destruct (verts_at bm rest) as [vs|e']; [discriminate|].
    intros Hrun. injection Hrun as <-. now apply IH.
  - intros Hrun. now injection Hrun as <-.
Qed.

Lemma collect_groups_raise (bm : BMesh.t) (kd : KDTree) (radius : Q)
  (vs : list BMVert.t) (e : exn) :
  collect_groups bm kd radius vs = Raise e ->
  e = RuntimeError "negative radius given" \/ e = IndexError.
Proof.
  induction vs as [|v vs IH]; simpl; [discriminate|].
  unfold find_range. destruct (Qle_bool 0 radius).
  - match goal with
    | |- context [if ?c then verts_at bm ?g else Ok []] =>
        destruct (if c then verts_at bm g else Ok []) as [group|e'] eqn:Hgroup
    end.
    + destruct (collect_groups bm kd radius vs) as [bad|e']; [discriminate|].
      intros Hrun. injection Hrun as <-. now apply IH.
    + intros Hrun. injection Hrun as <-. right.
      match type of Hgroup with
      | (if ?c then _ else _) = _ => destruct c; [|discriminate]
      end.
      now apply verts_at_raise in Hgroup.
  - intros Hrun. left. now injection Hrun as <-.
Qed.

Ltac atomic_check :=
  unfold atomic_outcome, bind, get;
  match goal with
  | |- context [nonempty ?bad] => destruct (nonempty bad)
  end;
  [ right; left; eexists; reflexivity | left; reflexivity ].

Lemma atomic_manifold_verts (el ea : Q) (w : World.t) :
  atomic_outcome (_check_bm_manifold_verts el ea true) w.
Proof. unfold _check_bm_manifold_verts. atomic_check. Qed.

Lemma atomic_manifold_edges (el ea : Q) (w : World.t) :
  atomic_outcome (_check_bm_manifold_edges el ea true) w.
Proof. unfold _check_bm_manifold_edges. atomic_check. Qed.

Lemma atomic_degenerate_edges (el ea : Q) (w : World.t) :
  atomic_outcome (_check_bm_degenerate_edges el ea true) w.
Proof. unfold _check_bm_degenerate_edges. atomic_check. Qed.

Lemma atomic_degenerate_faces (el ea : Q) (w : World.t) :
  atomic_outcome (_check_bm_degenerate_faces el ea true) w.
Proof. unfold _check_bm_degenerate_faces. atomic_check. Qed.

Lemma atomic_loose_vertices (el ea : Q) (w : World.t) :
  atomic_outcome (_check_bm_loose_vertices el ea true) w.
Proof. unfold _check_bm_loose_vertices. atomic_check. Qed.

Lemma atomic_duplicate_vertices (el ea : Q) (w : World.t) :
  atomic_outcome (_check_bm_duplicate_vertices el ea true) w.
Proof.
  unfold _check_bm_duplicate_vertices, atomic_outcome, bind, get.
  destruct (duplicate_vertices (World.bm w) el) as [bad|e] eqn:Hdup.
  - destruct (nonempty bad);
      [right; left; eexists; reflexivity | left; reflexivity].
  - apply collect_groups_raise in Hdup as [-> | ->];
      [right; right; left; reflexivity | right; right; right; reflexivity].
Qed.

Lemma atomic_normals (el ea : Q) (w : World.t) :
  atomic_outcome (_check_bm_normals el ea true) w.
Proof. unfold _check_bm_normals. atomic_check. Qed.

Lemma atomic_bind (m k : M World.t unit) (w : World.t) :
  atomic_outcome m w -> atomic_outcome k w ->
  atomic_outcome (bind m (fun _ => k)) w.
Proof.
  unfold atomic_outcome, bind.
  intros [Hm | [[msg Hm] | [Hm | Hm]]] Hk; rewrite Hm; eauto.
Qed.

Lemma atomic_quality (w : World.t) : atomic_outcome (_check_bm_quality true) w.
Proof.
  unfold _check_bm_quality.
  change (atomic_outcome
            (let el := Context.bf_config_min_edge_length
                         (Scene.context (World.scene w)) in
             let ea := Context.bf_config_min_face_area
                         (Scene.context (World.scene w)) in
             bind (_check_bm_manifold_verts el ea true) (fun _ =>
             bind (_check_bm_manifold_edges el ea true) (fun _ =>
             bind (_check_bm_degenerate_edges el ea true) (fun _ =>
             bind (_check_bm_degenerate_faces el ea true) (fun _ =>
             bind (_check_bm_loose_vertices el ea true) (fun _ =>
             bind (_check_bm_duplicate_vertices el ea true) (fun _ =>
             _check_bm_normals el ea true)))))))
            w).
  cbv zeta.
  do 6 (apply atomic_bind;
          [ auto using atomic_manifold_verts, atomic_manifold_edges,
              atomic_degenerate_edges, atomic_degenerate_faces,
              atomic_loose_vertices, atomic_duplicate_vertices | ]).
  apply atomic_normals.
Qed.

(** C10, as the code has it: with [protect] set, [_raise_bad_geometry]
    raises the exception of the object at once and touches nothing, so
    each quality check and the validator either return or raise with the
    state exactly as they found it, whichever exception they raise: the
    working mesh, its selection flags, the modifiers and the mesh data of
    the object are as before; [check_geom_quality] and [get_trisurface]
    leave the scene as they found it. [check_intersections] leaves the
    object as it found it, and the context too but for the switch of the
    active object to OBJECT mode that it makes before it looks for
    intersections. *)
Theorem protect_leaves_host_untouched :
  (forall msg bad_verts bad_edges bad_faces (w : World.t),
      _raise_bad_geometry msg true bad_verts bad_edges bad_faces w =
      (Raise (BFException (Object.name (Scene.ob (World.scene w))) msg), w))
  /\ (forall el ea (w : World.t),
         Forall (fun c : M World.t unit => atomic_outcome c w)
                (quality_checks el ea true))
  /\ (forall w : World.t, atomic_outcome (_check_bm_quality true) w)
  /\ (forall sc : Scene.t, snd (check_geom_quality true sc) = sc)
  /\ (forall scale_length check terrain (sc : Scene.t),
         snd (get_trisurface scale_length check terrain sc) = sc)
  /\ (forall other_obs (sc : Scene.t),
         snd (check_intersections other_obs true sc) =
         Scene.mk (mode_set_object_if_active (Scene.context sc))
                  (Scene.ob sc)).
Proof.
  split; [reflexivity|].
  split.
  { intros el ea w. unfold quality_checks.
    repeat (apply Forall_cons;
            [ auto using atomic_manifold_verts, atomic_manifold_edges,
                atomic_degenerate_edges, atomic_degenerate_faces,
                atomic_loose_vertices, atomic_duplicate_vertices,
                atomic_normals
            | ]).
    apply Forall_nil. }
  split; [apply atomic_quality|].
  split; [apply keeps_state_check_geom_quality|].
  split; [intros; apply keeps_state_get_trisurface|].
  apply check_intersections_protect_scene.
Qed.

(** C2, as the code has it: each of the first six checks either raises or
    returns with the state, and so the mesh, exactly as it received it,
    whatever the protect flag. The normal-consistency check does the same
    when [protect] is set; without it, a mesh with no offending edge is
    handed to [recalc_face_normals] and comes back as that operator leaves
    it. *)
Theorem quality_checks_pass_unchanged (epsilon_len epsilon_area : Q)
  (protect : bool) (w : World.t) :
  Forall (fun c : M World.t unit =>
            c w = (Ok tt, w) \/ exists e w', c w = (Raise e, w'))
         (firstn 6 (quality_checks epsilon_len epsilon_area protect))
  /\ (_check_bm_normals epsilon_len epsilon_area protect w =
      (Ok tt, if protect then w else set_bm recalc_face_normals w)
      \/ exists e w',
           _check_bm_normals epsilon_len epsilon_area protect w = (Raise e, w')).
Proof.
  assert (Hcases : forall c : M World.t unit,
             (fst (c w) = Ok tt -> c w = (Ok tt, w)) ->
             c w = (Ok tt, w) \/ exists e w', c w = (Raise e, w')).
  { intros c Hc. destruct (c w) as [[[]|e] w1] eqn:Hrun.
    - left. now apply Hc.
    - right. eauto. }
  split.
  - simpl.
    repeat (apply Forall_cons;
            [ apply Hcases;
              auto using _check_bm_manifold_verts_pass,
                _check_bm_manifold_edges_pass, _check_bm_degenerate_edges_pass,
                _check_bm_degenerate_faces_pass, _check_bm_loose_vertices_pass,
                _check_bm_duplicate_vertices_pass
            | ]).
    apply Forall_nil.
  - pose proof (_check_bm_normals_pass epsilon_len epsilon_area protect w)
      as Hpass.
    destruct (_check_bm_normals epsilon_len epsilon_area protect w)
      as [[[]|e] w1] eqn:Hrun.
    + left. now apply Hpass.
    + right. eauto.
Qed.

(** C4, as the code has it: the materials of an exported surface are the
    names of the materials bound to the slots of the object, one entry for
    each slot and in the order of the slots; a material bound to several
    slots is listed once for each of them. Every slot is bound to an
    exported material. *)
Theorem get_trisurface_materials_per_slot (scale_length : float)
  (check terrain : bool) (sc sc' : Scene.t) (mas : list string)
  (verts : list (float * float * float))
  (faces : list (nat * nat * nat * nat)) :
  get_trisurface scale_length check terrain sc = (Ok (mas, verts, faces), sc') ->
  mas = map slot_name (Object.material_slots (Scene.ob sc))
  /\ Forall slot_exported (Object.material_slots (Scene.ob sc))
  /\ List.length mas = List.length (Object.material_slots (Scene.ob sc)).
Proof.
  intros Hrun. apply get_trisurface_ok_materials in Hrun.
  apply _get_materials_ok_inv in Hrun as [Hexp ->].
  repeat split; [exact Hexp | apply length_map].
Qed.

(** C5, as the code has it: an object with no material slot fails with
    "No referenced SURF, add at least one Material"; an object with a slot
    that is empty or bound to a material that is not exported fails with
    the error of the first such slot in slot order, the empty-slot error
    when that slot is empty and the not-exported error when it is bound.
    Each failure comes before any geometry work: the scene is as it was,
    and the outcome is the same whatever [get_object_bmesh] and the checks
    would have done. *)
Theorem get_trisurface_material_failures (scale_length : float)
  (check terrain : bool) (sc : Scene.t) :
  let ob := Scene.ob sc in
  (Object.material_slots ob = [] ->
   get_trisurface scale_length check terrain sc =
   (Raise (BFException (Object.name ob) msg_no_material), sc))
  /\ (forall good slot rest,
         Object.material_slots ob = good ++ slot :: rest ->
         Forall slot_exported good ->
         (MaterialSlot.material slot = None ->
          get_trisurface scale_length check terrain sc =
          (Raise (BFException (Object.name ob) msg_empty_slot), sc))
         /\ (forall ma,
                MaterialSlot.material slot = Some ma ->
                Material.bf_surf_export ma = false ->
                get_trisurface scale_length check terrain sc =
                (Raise (BFException (Object.name ob)
                                    (msg_not_exported (Material.name ma))),
                 sc))).
Proof.
  intros ob. split.
  - intros Hslots. apply get_trisurface_materials_raise.
    unfold _get_materials. fold ob. now rewrite Hslots.
  - intros good slot rest Hslots Hgood.
    assert (Hloop : _get_materials ob =
                    _get_materials_loop (Object.name ob) (slot :: rest)
                                        ([] ++ map slot_name good)).
    { unfold _get_materials. rewrite Hslots.
      destruct good; simpl List.length; cbn [Nat.eqb];
        now rewrite <- _get_materials_loop_first_bad. }
    split.
    + intros Hempty. apply get_trisurface_materials_raise. fold ob.
      rewrite Hloop. simpl. now rewrite Hempty.
    + intros ma Hma Hexp. apply get_trisurface_materials_raise. fold ob.
      rewrite Hloop. simpl. now rewrite Hma, Hexp.
Qed.

(** ** The exported surface *)

Lemma get_trisurface_unfold (scale_length : float) (check terrain : bool)
  (sc : Scene.t) :
  get_trisurface scale_length check terrain sc =
  match _get_materials (Scene.ob sc) with
  | Raise e => (Raise e, sc)
  | Ok mas =>
      match get_object_bmesh (Scene.context sc) (Scene.ob sc)
                             None (Some true) (Some true) (Some false) with
      | Raise e => (Raise e, sc)
      | Ok bm =>
          match (if check then fst (_check_bm_quality true (World.mk sc bm))
                 else Ok tt) with
          | Raise e => (Raise e, sc)
          | Ok _ =>
              match face_rows (BMesh.faces bm) with
              | Raise e => (Raise e, sc)
              | Ok faces =>
                  (Ok (mas, map (vert_row scale_length) (BMesh.verts bm),
                       faces), sc)
              end
          end
      end
  end.
Proof.
  unfold get_trisurface, bind, get, lift, in_world, ret, modify.
  destruct (_get_materials (Scene.ob sc)) as [mas|e]; [|reflexivity].
  destruct (get_object_bmesh _ _ _ _ _ _) as [bm|e]; [|reflexivity].
  destruct check.
  - pose proof (keeps_state_quality (World.mk sc bm)) as Hkeep.
    destruct (_check_bm_quality true (World.mk sc bm)) as [[[]|e] w].
    + simpl in Hkeep. subst w. simpl.
      destruct (face_rows (BMesh.faces bm)); reflexivity.
    + simpl in Hkeep. subst w. reflexivity.
  - simpl. destruct (face_rows (BMesh.faces bm)); reflexivity.
Qed.





(** ** Handles *)

Lemma in_combine_seq {A} (l : list A) :
  forall (start i : nat) (a : A),
    In (i, a) (combine (seq start (List.length l)) l) <->
    (start <= i)%nat /\ nth_error l (i - start) = Some a.
Proof.
  induction l as [|x l IH]; intros start i a; simpl.
  - split; [tauto|]. intros [_ Hnth]. destruct (i - start)%nat; discriminate.
  - rewrite IH. split.
    + intros [Heq | [Hle Hnth]].
      * inversion Heq; subst. rewrite Nat.sub_diag. auto.
      * split; [lia|].
        replace (i - start)%nat with (S (i - S start)) by lia. exact Hnth.
    + intros [Hle Hnth].
      destruct (Nat.eq_dec start i) as [->|Hne].
      * rewrite Nat.sub_diag in Hnth. inversion Hnth. now left.
      * right. split; [lia|].
        replace (i - start)%nat with (S (i - S start)) in Hnth by lia.
        exact Hnth.
Qed.

Lemma in_enumerate {A} (l : list A) (i : nat) (a : A) :
  In (i, a) (enumerate l) <-> nth_error l i = Some a.
Proof.
  unfold enumerate. rewrite in_combine_seq, Nat.sub_0_r.
  split; [tauto | split; [lia | assumption]].
Qed.

Lemma map_fst_enumerate {A} (l : list A) :
  map fst (enumerate l) = seq 0 (List.length l).
Proof.
  unfold enumerate. generalize 0%nat.
  induction l as [|x l IH]; intros start; simpl; [reflexivity|].
  now rewrite IH.
Qed.

Lemma NoDup_handles_where {A} (p : A -> bool) (l : list A) :
  NoDup (handles_where p l).
Proof.
  unfold handles_where.
  assert (Hseq : NoDup (map fst (enumerate l)))
    by (rewrite map_fst_enumerate; apply seq_NoDup).
  revert Hseq. generalize (enumerate l) as xs.
  induction xs as [|[i a] xs IH]; intros Hseq; cbn [filter map fst snd].
  - apply NoDup_nil.
  - apply NoDup_cons_iff in Hseq as [Hfresh Hrest].
    destruct (p a); cbn [map fst]; [apply NoDup_cons|]; auto.
    intros Hin. apply Hfresh.
    apply in_map_iff in Hin as ([j b] & Hj & Hin).
    apply filter_In in Hin as [Hin _].
    apply in_map_iff. exists (j, b). auto.
Qed.

Lemma in_handles_where {A} (p : A -> bool) (l : list A) (i : nat) :
  In i (handles_where p l) <-> exists a, nth_error l i = Some a /\ p a = true.
Proof.
  unfold handles_where. rewrite in_map_iff. split.
  - intros ([j a] & Hfst & Hin). simpl in Hfst. subst j.
    apply filter_In in Hin as [Hin Hp]. apply in_enumerate in Hin. eauto.
  - intros (a & Hnth & Hp). exists (i, a). split; [reflexivity|].
    apply filter_In. split; [now apply in_enumerate | exact Hp].
Qed.

Lemma nonempty_false {A} (l : list A) : nonempty l = false <-> l = [].
Proof. destruct l; simpl; split; congruence. Qed.

Lemma nonempty_true {A} (l : list A) :
  nonempty l = true <-> exists a, In a l.
Proof.
  destruct l as [|a l]; simpl; split.
  - discriminate.
  - intros [a []].
  - eauto.
  - reflexivity.
Qed.

(** ** Degenerate faces *)

Lemma in_degenerate_faces (bm : BMesh.t) (epsilon_area : Q) (i : nat) :
  In i (degenerate_faces bm epsilon_area) <->
  exists f, nth_error (BMesh.faces bm) i = Some f
            /\ BMFace.calc_area f <= epsilon_area.
Proof.
  unfold degenerate_faces. rewrite in_handles_where.
  split; intros (f & Hnth & Harea); exists f; split; auto;
    now apply Qle_bool_iff.
Qed.

Lemma _check_bm_degenerate_faces_raises (el ea : Q) (protect : bool)
  (w : World.t) :
  (exists e w', _check_bm_degenerate_faces el ea protect w = (Raise e, w'))
  <-> exists i, In i (degenerate_faces (World.bm w) ea).
Proof.
  unfold _check_bm_degenerate_faces, bind, get.
  destruct (nonempty (degenerate_faces (World.bm w) ea)) eqn:Hbad.
  - split.
    + intros _. now apply nonempty_true.
    + intros _. apply _raise_bad_geometry_raises.
  - apply nonempty_false in Hbad. rewrite Hbad. split.
    + intros (e & w' & Hrun). discriminate.
    + intros [i []].
Qed.

(** C9: the degenerate-face check collects exactly the faces whose area is
    at most [epsilon_area] and fails exactly when there is one; it is
    monotone in the tolerance: a face collected at [epsilon_area] is
    collected at every larger tolerance, and a mesh on which the check
    fails at [epsilon_area] fails it at every larger tolerance. *)
Theorem _check_bm_degenerate_faces_monotone (epsilon_len epsilon_area : Q)
  (protect : bool) (w : World.t) :
  (forall i,
      In i (degenerate_faces (World.bm w) epsilon_area) <->
      exists f, nth_error (BMesh.faces (World.bm w)) i = Some f
                /\ BMFace.calc_area f <= epsilon_area)
  /\ ((exists e w',
          _check_bm_degenerate_faces epsilon_len epsilon_area protect w =
          (Raise e, w'))
      <-> exists i f, nth_error (BMesh.faces (World.bm w)) i = Some f
                      /\ BMFace.calc_area f <= epsilon_area)
  /\ (forall larger,
         epsilon_area <= larger ->
         (forall i,
             In i (degenerate_faces (World.bm w) epsilon_area) ->
             In i (degenerate_faces (World.bm w) larger))
         /\ ((exists e w',
                 _check_bm_degenerate_faces epsilon_len epsilon_area protect w =
                 (Raise e, w')) ->
             exists e w',
               _check_bm_degenerate_faces epsilon_len larger protect w =
               (Raise e, w'))).
Proof.
  split; [apply in_degenerate_faces|].
  split.
  - rewrite _check_bm_degenerate_faces_raises.
    split; intros [i Hi]; exists i; now apply in_degenerate_faces.
  - intros larger Hle.
    assert (Hmono : forall i,
               In i (degenerate_faces (World.bm w) epsilon_area) ->
               In i (degenerate_faces (World.bm w) larger)).
    { intros i Hi. apply in_degenerate_faces in Hi as (f & Hnth & Harea).
      apply in_degenerate_faces. exists f. split; [exact Hnth|].
      eapply Qle_trans; eassumption. }
    split; [exact Hmono|].
    rewrite !_check_bm_degenerate_faces_raises.
    intros [i Hi]. exists i. now apply Hmono.
Qed.

(** ** Duplicate vertices *)

Lemma build_kd_enumerate (verts : list BMVert.t) :
  build_kd verts =
  map (fun iv => (BMVert.co (snd iv), fst iv)) (enumerate verts).
Proof.
  unfold build_kd, kd_insert.
  enough (Hgen : forall l acc,
             fold_left
               (fun (kd : KDTree) (iv : nat * BMVert.t) =>
                  kd ++ [(BMVert.co (snd iv), fst iv)]) l acc =
             acc ++ map (fun iv => (BMVert.co (snd iv), fst iv)) l)
    by apply (Hgen _ []).
  induction l as [|iv l IH]; intros acc; simpl.
  - now rewrite app_nil_r.
  - rewrite IH, <- app_assoc. reflexivity.
Qed.

Lemma find_range_build_kd (verts : list BMVert.t) (radius : Q)
  (co : Vector.t) :
  0 <= radius ->
  find_range (build_kd verts) co radius = Ok (group_of verts radius co).
Proof.
  intros Hradius. unfold find_range, group_of, handles_where.
  apply Qle_bool_iff in Hradius. rewrite Hradius, build_kd_enumerate.
  f_equal. induction (enumerate verts) as [|iv l IH]; simpl; [reflexivity|].
  destruct (Qle_bool (len_squared co (BMVert.co (snd iv))) (radius * radius));
    cbn [map fst snd]; now rewrite IH.
Qed.

Lemma NoDup_group_of (verts : list BMVert.t) (radius : Q) (co : Vector.t) :
  NoDup (group_of verts radius co).
Proof.
  unfold group_of. apply NoDup_handles_where.
Qed.

Lemma in_group_of (verts : list BMVert.t) (radius : Q) (co : Vector.t)
  (j : nat) :
  In j (group_of verts radius co) <->
  exists vj, nth_error verts j = Some vj
             /\ len_squared co (BMVert.co vj) <= radius * radius.
Proof.
  unfold group_of. rewrite in_handles_where.
  split; intros (vj & Hnth & Hnear); exists vj; split; auto;
    now apply Qle_bool_iff.
Qed.

Lemma group_of_in_range (verts : list BMVert.t) (radius : Q) (co : Vector.t)
  (j : nat) :
  In j (group_of verts radius co) -> (j < List.length verts)%nat.
Proof.
  intros Hj. apply in_group_of in Hj as (vj & Hnth & _).
  apply nth_error_Some. congruence.
Qed.

Lemma verts_at_lookup (bm : BMesh.t) (vert_group : list nat) :
  BMesh.verts_lookup bm = true ->
  (forall i, In i vert_group -> (i < List.length (BMesh.verts bm))%nat) ->
  verts_at bm vert_group = Ok vert_group.
Proof.
  intros Hlookup. induction vert_group as [|i rest IH]; intros Hrange; simpl;
    [reflexivity|].
  rewrite Hlookup. cbn [andb].
  destruct (Nat.ltb_spec i (List.length (BMesh.verts bm))) as [_|Hout].
  - rewrite IH; [reflexivity|]. intros j Hj. apply Hrange. now right.
  - specialize (Hrange i (or_introl eq_refl)). lia.
Qed.

Lemma verts_at_outdated (bm : BMesh.t) (vert_group : list nat) :
  BMesh.verts_lookup bm = false ->
  (1 < List.length vert_group)%nat ->
  verts_at bm vert_group = Raise IndexError.
Proof.
  intros Hlookup Hlen. destruct vert_group as [|i rest]; simpl in *; [lia|].
  now rewrite Hlookup.
Qed.

(** What the loop over the vertices gives for a radius that is not
    negative: the groups one after the other when the lookup table is up
    to date, an [IndexError] at the first group otherwise. *)
Lemma collect_groups_run (bm : BMesh.t) (vs : list BMVert.t) (radius : Q) :
  0 <= radius ->
  let groups :=
    flat_map
      (fun v =>
         if (1 <? List.length
                    (group_of (BMesh.verts bm) radius (BMVert.co v)))%nat
         then group_of (BMesh.verts bm) radius (BMVert.co v) else [])
      vs in
  collect_groups bm (build_kd (BMesh.verts bm)) radius vs =
  if BMesh.verts_lookup bm then Ok groups
  else if nonempty groups then Raise IndexError else Ok [].
Proof.
  intros Hradius. induction vs as [|v vs IH]; simpl.
  - now destruct (BMesh.verts_lookup bm).
  - rewrite find_range_build_kd by exact Hradius.
    simpl in IH. rewrite IH. clear IH.
    destruct (Nat.ltb_spec
                1 (List.length
                     (group_of (BMesh.verts bm) radius (BMVert.co v))))
      as [Hlen|Hlen].
    + destruct (BMesh.verts_lookup bm) eqn:Hlookup.
      * rewrite verts_at_lookup;
          [reflexivity | exact Hlookup | apply group_of_in_range].
      * rewrite verts_at_outdated by assumption.
        destruct (group_of (BMesh.verts bm) radius (BMVert.co v));
          [simpl in Hlen; lia | reflexivity].
    + cbn [app]. destruct (BMesh.verts_lookup bm); [reflexivity|].
      match goal with
      | |- context [nonempty ?l] => destruct (nonempty l); reflexivity
      end.
Qed.

Lemma duplicate_vertices_run (bm : BMesh.t) (radius : Q) :
  0 <= radius ->
  duplicate_vertices bm radius =
  if BMesh.verts_lookup bm then Ok (reported_groups (BMesh.verts bm) radius)
  else if nonempty (reported_groups (BMesh.verts bm) radius)
       then Raise IndexError else Ok [].
Proof.
  intros Hradius. unfold duplicate_vertices, reported_groups.
  now rewrite collect_groups_run.
Qed.

Lemma duplicate_vertices_ok (bm : BMesh.t) (radius : Q)
  (bad_verts : list nat) :
  0 <= radius ->
  duplicate_vertices bm radius = Ok bad_verts ->
  bad_verts = reported_groups (BMesh.verts bm) radius.
Proof.
  intros Hradius. rewrite duplicate_vertices_run by exact Hradius.
  destruct (BMesh.verts_lookup bm); [congruence|].
  destruct (reported_groups (BMesh.verts bm) radius); simpl;
    [congruence | discriminate].
Qed.

Lemma len_squared_sym (a b : Vector.t) : len_squared a b == len_squared b a.
Proof. unfold len_squared. cbv zeta. ring. Qed.

Lemma len_squared_refl (a : Vector.t) : len_squared a a == 0.
Proof. unfold len_squared. cbv zeta. ring. Qed.

Lemma within_sym (radius : Q) (a b : BMVert.t) :
  within radius a b -> within radius b a.
Proof. unfold within. now rewrite len_squared_sym. Qed.

Lemma within_refl (radius : Q) (a : BMVert.t) : within radius a a.
Proof.
  unfold within. rewrite len_squared_refl.
  destruct (Qlt_le_dec radius 0) as [Hneg|Hpos].
  - setoid_replace (radius * radius) with ((- radius) * (- radius)) by ring.
    apply Qmult_le_0_compat; apply (Qopp_le_compat radius 0); now apply Qlt_le_weak.
  - now apply Qmult_le_0_compat.
Qed.

Lemma NoDup_other {A} (l : list A) (a : A) :
  NoDup l -> In a l -> (1 < List.length l)%nat -> exists b, In b l /\ b <> a.
Proof.
  intros Hnd Hin Hlen.
  destruct l as [|x [|y t]]; simpl in Hlen; try lia.
  inversion Hnd as [|? ? Hx _]; subst.
  destruct Hin as [<- | Hin].
  - exists y. split; [simpl; auto|].
    intros ->. apply Hx. now left.
  - exists x. split; [now left|].
    intros ->. contradiction.
Qed.

Lemma two_members_length {A} (l : list A) (a b : A) :
  In a l -> In b l -> a <> b -> (1 < List.length l)%nat.
Proof.
  intros Ha Hb Hne. destruct l as [|x [|y t]].
  - destruct Ha.
  - destruct Ha as [<-|[]], Hb as [<-|[]]. congruence.
  - simpl. lia.
Qed.

Lemma in_reported_groups (verts : list BMVert.t) (radius : Q) (i : nat) :
  In i (reported_groups verts radius) <-> has_neighbour radius verts i.
Proof.
  unfold reported_groups. rewrite in_flat_map. split.
  - intros (u & Hu & Hi).
    destruct (1 <? _)%nat eqn:Hlen; [|contradiction].
    apply Nat.ltb_lt in Hlen.
    apply In_nth_error in Hu as [p Hp].
    pose proof Hi as Hi'. apply in_group_of in Hi' as (vi & Hvi & Hnear).
    destruct (Nat.eq_dec i p) as [->|Hne].
    + destruct (NoDup_other _ p (NoDup_group_of _ _ _) Hi Hlen) as (j & Hj & Hjp).
      apply in_group_of in Hj as (vj & Hvj & Hnearj).
      exists j, vi, vj. repeat split; auto.
      rewrite Hp in Hvi. inversion Hvi; subst. exact Hnearj.
    + exists p, vi, u. repeat split; auto. apply within_sym. exact Hnear.
  - intros (j & vi & vj & Hne & Hvi & Hvj & Hnear).
    exists vi. split; [eapply nth_error_In; eassumption|].
    assert (Hi : In i (group_of verts radius (BMVert.co vi))).
    { apply in_group_of. exists vi. split; [exact Hvi | apply within_refl]. }
    assert (Hj : In j (group_of verts radius (BMVert.co vi))).
    { apply in_group_of. exists vj. split; [exact Hvj | exact Hnear]. }
    pose proof (two_members_length _ _ _ Hi Hj Hne) as Hlen.
    apply Nat.ltb_lt in Hlen. now rewrite Hlen.
Qed.

Lemma in_duplicate_vertices (bm : BMesh.t) (radius : Q) :
  0 <= radius ->
  BMesh.verts_lookup bm = true ->
  exists bad_verts,
    duplicate_vertices bm radius = Ok bad_verts
    /\ forall i, In i bad_verts <-> has_neighbour radius (BMesh.verts bm) i.
Proof.
  intros Hradius Hlookup.
  rewrite duplicate_vertices_run, Hlookup by exact Hradius.
  eexists. split; [reflexivity|]. apply in_reported_groups.
Qed.

Lemma has_neighbour_permutation (radius : Q) (vs vs' : list BMVert.t)
  (v : BMVert.t) :
  Permutation vs vs' ->
  (exists i, has_neighbour radius vs i /\ nth_error vs i = Some v) ->
  exists i', has_neighbour radius vs' i' /\ nth_error vs' i' = Some v.
Proof.
  intros Hperm (i & (j & vi & vj & Hne & Hvi & Hvj & Hnear) & Hv).
  apply Permutation_sym, Permutation_nth_error in Hperm
    as (_ & f & Hinj & Hf).
  exists (f i). split.
  - exists (f j), vi, vj. repeat split.
    + intros Heq. apply Hne, Hinj, Heq.
    + now rewrite <- Hf.
    + now rewrite <- Hf.
    + exact Hnear.
  - now rewrite <- Hf.
Qed.

(** X15: On a bmesh whose vertex lookup table is up to date, as
    [check_geom_quality] asks for it, and for a radius that is not
    negative, the duplicate-vertex detector returns a list whose members
    are exactly the vertices that have another vertex within the radius.
    Hence the relation is symmetric (when [i] is within the radius of [j]
    both are reported), every vertex of a group of two or more vertices
    that lie pairwise within the radius is reported, whatever the size of
    the group, and the set of reported vertices does not depend on the
    order in which the vertices are enumerated. *)
Theorem duplicate_vertices_reported (bm : BMesh.t) (radius : Q) :
  0 <= radius ->
  BMesh.verts_lookup bm = true ->
  exists bad_verts,
    duplicate_vertices bm radius = Ok bad_verts
    /\ (forall i, In i bad_verts <-> has_neighbour radius (BMesh.verts bm) i)
    /\ (forall i j vi vj,
           i <> j ->
           nth_error (BMesh.verts bm) i = Some vi ->
           nth_error (BMesh.verts bm) j = Some vj ->
           within radius vi vj ->
           In i bad_verts /\ In j bad_verts)
    /\ (forall group,
           (1 < List.length group)%nat ->
           NoDup group ->
           (forall i j,
               In i group -> In j group ->
               exists vi vj,
                 nth_error (BMesh.verts bm) i = Some vi
                 /\ nth_error (BMesh.verts bm) j = Some vj
                 /\ within radius vi vj) ->
           forall i, In i group -> In i bad_verts)
    /\ (forall bm' bad_verts',
           Permutation (BMesh.verts bm) (BMesh.verts bm') ->
           duplicate_vertices bm' radius = Ok bad_verts' ->
           forall v,
             (exists i, In i bad_verts
                        /\ nth_error (BMesh.verts bm) i = Some v)
             <-> (exists i', In i' bad_verts'
                             /\ nth_error (BMesh.verts bm') i' = Some v)).
Proof.
  intros Hradius Hlookup.
  destruct (in_duplicate_vertices bm radius Hradius Hlookup)
    as (bad & Hrun & Hbad).
  exists bad. split; [exact Hrun|]. split; [exact Hbad|]. split; [|split].
  - intros i j vi vj Hne Hvi Hvj Hnear. split; apply Hbad.
    + exists j, vi, vj. auto.
    + exists i, vj, vi. repeat split; auto. now apply within_sym.
  - intros group Hlen Hnd Hgroup i Hi. apply Hbad.
    destruct (NoDup_other group i Hnd Hi Hlen) as (j & Hj & Hji).
    destruct (Hgroup i j Hi Hj) as (vi & vj & Hvi & Hvj & Hnear).
    exists j, vi, vj. auto.
  - intros bm' bad' Hperm Hrun' v.
    apply duplicate_vertices_ok in Hrun'; [|exact Hradius]. subst bad'.
    split; intros (i & Hi & Hv).
    + destruct (has_neighbour_permutation radius _ _ v Hperm) as (i' & Hi' & Hv').
      { exists i. split; [now apply Hbad | exact Hv]. }
      exists i'. split; [now apply in_reported_groups | exact Hv'].
    + destruct (has_neighbour_permutation radius _ _ v (Permutation_sym Hperm))
        as (i' & Hi' & Hv').
      { exists i. split; [now apply in_reported_groups | exact Hv]. }
      exists i'. split; [now apply Hbad | exact Hv'].
Qed.

(** X16: On a bmesh whose vertex lookup table is outdated, the
    duplicate-vertex check raises an [IndexError] as soon as a vertex has
    another vertex within the radius, with or without [protect], and
    leaves the state as it found it; when no vertex has one it returns as
    it does with the table. *)
Theorem _check_bm_duplicate_vertices_outdated_table
  (epsilon_len epsilon_area : Q) (protect : bool) (w : World.t) :
  0 <= epsilon_len ->
  BMesh.verts_lookup (World.bm w) = false ->
  ((exists i, has_neighbour epsilon_len (BMesh.verts (World.bm w)) i) ->
   _check_bm_duplicate_vertices epsilon_len epsilon_area protect w =
   (Raise IndexError, w))
  /\ ((forall i, ~ has_neighbour epsilon_len (BMesh.verts (World.bm w)) i) ->
      _check_bm_duplicate_vertices epsilon_len epsilon_area protect w =
      (Ok tt, w)).
Proof.
  intros Hradius Hlookup.
  unfold _check_bm_duplicate_vertices, bind, get.
  rewrite duplicate_vertices_run, Hlookup by exact Hradius.
  destruct (reported_groups (BMesh.verts (World.bm w)) epsilon_len)
    as [|i0 rest] eqn:Hgroups; simpl.
  - split; [|reflexivity].
    intros [i Hi]. apply in_reported_groups in Hi. rewrite Hgroups in Hi.
    destruct Hi.
  - split; [reflexivity|].
    intros Hnone. exfalso. apply (Hnone i0), in_reported_groups.
    rewrite Hgroups. now left.
Qed.

(** ** Intersections *)

Lemma intersect_others_matrix_world (context : Context.t) (ob : Object.t)
  (bm : BMesh.t) (tree : BVHTree) (epsilon_len : Q)
  (other_obs other_obs' : list Object.t) :
  map Object.matrix_world other_obs = map Object.matrix_world other_obs' ->
  forall bad_faces,
    intersect_others context ob bm tree epsilon_len other_obs bad_faces =
    intersect_others context ob bm tree epsilon_len other_obs' bad_faces.
Proof.
  revert other_obs'.
  induction other_obs as [|o rest IH]; intros [|o' rest'] Hmw bad_faces;
    try discriminate; [reflexivity|].
  simpl in Hmw. injection Hmw as Ho Hrest. simpl. rewrite Ho.
  destruct (inverted (Object.matrix_world ob)); [|reflexivity].
  destruct (get_object_bmesh _ _ _ _ _ _); [|reflexivity].
  destruct (_get_bm_intersected_faces _ _ _); [|reflexivity].
  now apply IH.
Qed.

(** [check_intersections] reads nothing of another object but its
    [matrix_world]. The bmesh it builds for each of them is the bmesh of
    [ob] itself moved by the relative transform, so that two lists of
    other objects placed alike give the same outcome whatever their meshes
    are. *)
Lemma check_intersections_ignores_other_meshes
  (other_obs other_obs' : list Object.t) (protect : bool) (sc : Scene.t) :
  map Object.matrix_world other_obs = map Object.matrix_world other_obs' ->
  check_intersections other_obs protect sc =
  check_intersections other_obs' protect sc.
Proof.
  intros Hmw. unfold check_intersections, bind, get, modify, lift.
  destruct (get_object_bmesh _ _ _ _ _ _) as [bm|e]; [|reflexivity].
  destruct (_get_bm_intersected_faces _ _ _) as [bad0|e]; [|reflexivity].
  now rewrite (intersect_others_matrix_world _ _ _ _ _ _ _ Hmw).
Qed.

(** * Further properties of the program *)

(** ** Materials *)

Lemma _get_materials_loop_raise (ob_name : string)
  (slots : list MaterialSlot.t) (e : exn) :
  forall mas,
    _get_materials_loop ob_name slots mas = Raise e ->
    exists msg, e = BFException ob_name msg.
Proof.
  induction slots as [|slot rest IH]; intros mas Hrun; simpl in Hrun.
  - discriminate.
  - destruct (MaterialSlot.material slot) as [ma|].
    + destruct (Material.bf_surf_export ma); simpl in Hrun.
      * eapply IH. eassumption.
      * injection Hrun as <-. eauto.
    + injection Hrun as <-. eauto.
Qed.

(** X1: [_get_materials] returns exactly when the object has a material slot
    and every slot is bound to an exported material, and then it returns
    the names of the slots in order; in every other case it raises a
    [BFException] that carries the name of the object, never another
    exception. *)
Theorem _get_materials_ok_iff (ob : Object.t) :
  (_get_materials ob = Ok (map slot_name (Object.material_slots ob))
   <-> Object.material_slots ob <> []
       /\ Forall slot_exported (Object.material_slots ob))
  /\ (forall mas,
         _get_materials ob = Ok mas ->
         mas = map slot_name (Object.material_slots ob))
  /\ (forall e,
         _get_materials ob = Raise e ->
         exists msg, e = BFException (Object.name ob) msg).
Proof.
  split; [|split].
  - split.
    + intros Hrun. split.
      * intros Hnil. unfold _get_materials in Hrun. rewrite Hnil in Hrun.
        discriminate.
      * now apply _get_materials_ok_inv in Hrun.
    + intros [Hne Hexp]. unfold _get_materials.
      destruct (Object.material_slots ob) as [|slot rest] eqn:Hslots;
        [congruence|].
      cbn [List.length Nat.eqb].
      now rewrite _get_materials_loop_exported.
  - intros mas Hrun. now apply _get_materials_ok_inv in Hrun.
  - intros e. unfold _get_materials.
    destruct (List.length (Object.material_slots ob) =? 0)%nat.
    + intros Hrun. injection Hrun as <-. eauto.
    + apply _get_materials_loop_raise.
Qed.

(** ** Raising without protect *)

Lemma _raise_bad_geometry_edit (msg : string)
  (bad_verts bad_edges bad_faces : list nat) (w : World.t) :
  nonempty bad_verts || nonempty bad_edges || nonempty bad_faces = true ->
  exists w',
    _raise_bad_geometry msg false bad_verts bad_edges bad_faces w =
    (Raise (BFException (Object.name (Scene.ob (World.scene w))) msg), w')
    /\ left_for_editing w w'
    /\ Context.select_mode (Scene.context (World.scene w')) =
       (if nonempty bad_verts then VERT
        else if nonempty bad_edges then EDGE else FACE).
Proof.
  intros Hbad.
  unfold _raise_bad_geometry, bind, get, modify, ret, raise.
  destruct (nonempty bad_faces), (nonempty bad_edges), (nonempty bad_verts);
    try discriminate Hbad;
    (eexists; split; [reflexivity|]; split;
     [unfold left_for_editing; repeat split | reflexivity]).
Qed.

(** X3: Without [protect], [_raise_bad_geometry] called with an offending
    element raises the [BFException] of the object with the message it was
    given, after it has prepared the object for editing: the modifiers are
    gone, the bmesh is written to the mesh data and freed, the object is
    the active and only selected object, in edit mode, and the mesh select
    mode is that of the vertices if there are bad vertices, else that of
    the edges if there are bad edges, else that of the faces. *)
Theorem _raise_bad_geometry_prepares_editing (msg : string)
  (bad_verts bad_edges bad_faces : list nat) (w : World.t) :
  bad_verts <> [] \/ bad_edges <> [] \/ bad_faces <> [] ->
  exists w',
    _raise_bad_geometry msg false bad_verts bad_edges bad_faces w =
    (Raise (BFException (Object.name (Scene.ob (World.scene w))) msg), w')
    /\ left_for_editing w w'
    /\ (bad_verts <> [] ->
        Context.select_mode (Scene.context (World.scene w')) = VERT)
    /\ (bad_verts = [] -> bad_edges <> [] ->
        Context.select_mode (Scene.context (World.scene w')) = EDGE)
    /\ (bad_verts = [] -> bad_edges = [] ->
        Context.select_mode (Scene.context (World.scene w')) = FACE).
Proof.
  intros Hbad.
  destruct (_raise_bad_geometry_edit msg bad_verts bad_edges bad_faces w)
    as (w' & Hrun & Hedit & Hmode).
  { destruct bad_verts, bad_edges, bad_faces; simpl; try reflexivity.
    destruct Hbad as [Hbad | [Hbad | Hbad]]; congruence. }
  exists w'. split; [exact Hrun|]. split; [exact Hedit|].
  rewrite Hmode. repeat split.
  - intros Hv. destruct bad_verts; [congruence | reflexivity].
  - intros -> He. destruct bad_edges; [congruence | reflexivity].
  - intros -> ->. reflexivity.
Qed.

(** ** The diagnostic does not depend on protect *)

Lemma _raise_bad_geometry_fst (msg : string) (protect : bool)
  (bad_verts bad_edges bad_faces : list nat) (w : World.t) :
  nonempty bad_verts || nonempty bad_edges || nonempty bad_faces = true ->
  fst (_raise_bad_geometry msg protect bad_verts bad_edges bad_faces w) =
  Raise (BFException (Object.name (Scene.ob (World.scene w))) msg).
Proof.
  intros Hbad. destruct protect.
  - reflexivity.
  - destruct (_raise_bad_geometry_edit msg bad_verts bad_edges bad_faces w Hbad)
      as (w' & -> & _). reflexivity.
Qed.

Ltac same_diagnostic :=
  unfold bind, get;
  let Hbad := fresh "Hbad" in
  match goal with
  | |- context [nonempty ?bad] =>
      destruct (nonempty bad) eqn:Hbad; [|reflexivity]
  end;
  rewrite !_raise_bad_geometry_fst;
  [ reflexivity | .. ]; simpl; rewrite ?Hbad; reflexivity.

Lemma _check_bm_manifold_verts_fst (el ea : Q) (protect : bool) (w : World.t) :
  fst (_check_bm_manifold_verts el ea protect w) =
  fst (_check_bm_manifold_verts el ea true w).
Proof. unfold _check_bm_manifold_verts. same_diagnostic. Qed.

Lemma _check_bm_manifold_edges_fst (el ea : Q) (protect : bool) (w : World.t) :
  fst (_check_bm_manifold_edges el ea protect w) =
  fst (_check_bm_manifold_edges el ea true w).
Proof. unfold _check_bm_manifold_edges. same_diagnostic. Qed.

Lemma _check_bm_degenerate_edges_fst (el ea : Q) (protect : bool)
  (w : World.t) :
  fst (_check_bm_degenerate_edges el ea protect w) =
  fst (_check_bm_degenerate_edges el ea true w).
Proof. unfold _check_bm_degenerate_edges. same_diagnostic. Qed.

Lemma _check_bm_degenerate_faces_fst (el ea : Q) (protect : bool)
  (w : World.t) :
  fst (_check_bm_degenerate_faces el ea protect w) =
  fst (_check_bm_degenerate_faces el ea true w).
Proof. unfold _check_bm_degenerate_faces. same_diagnostic. Qed.

Lemma _check_bm_loose_vertices_fst (el ea : Q) (protect : bool) (w : World.t) :
  fst (_check_bm_loose_vertices el ea protect w) =
  fst (_check_bm_loose_vertices el ea true w).
Proof. unfold _check_bm_loose_vertices. same_diagnostic. Qed.

Lemma _check_bm_duplicate_vertices_fst (el ea : Q) (protect : bool)
  (w : World.t) :
  fst (_check_bm_duplicate_vertices el ea protect w) =
  fst (_check_bm_duplicate_vertices el ea true w).
Proof.
  unfold _check_bm_duplicate_vertices, bind, get.
  destruct (duplicate_vertices (World.bm w) el) as [bad|e]; [|reflexivity].
  destruct (nonempty bad) eqn:Hbad; [|reflexivity].
  rewrite !_raise_bad_geometry_fst; [reflexivity | ..];
    simpl; rewrite ?Hbad; reflexivity.
Qed.

Lemma _check_bm_normals_fst (el ea : Q) (protect : bool) (w : World.t) :
  fst (_check_bm_normals el ea protect w) =
  fst (_check_bm_normals el ea true w).
Proof.
  unfold _check_bm_normals, bind, get.
  match goal with
  | |- context [nonempty ?bad] => destruct (nonempty bad) eqn:Hbad
  end.
  - pose proof (_raise_bad_geometry_fst
                  (msg_normals
                     (List.length
                        (handles_where
                           (fun edge => negb (BMEdge.is_contiguous edge))
                           (BMesh.edges (World.bm w)))))
                  protect []
                  (handles_where (fun edge => negb (BMEdge.is_contiguous edge))
                                 (BMesh.edges (World.bm w)))
                  [] w) as Hfst.
    simpl in Hfst. rewrite Hbad in Hfst. specialize (Hfst eq_refl).
    destruct (_raise_bad_geometry _ protect _ _ _ w) as [[[]|e] w'];
      simpl in Hfst; [discriminate|].
    injection Hfst as ->. reflexivity.
  - unfold ret. destruct protect; reflexivity.
Qed.

Lemma fst_bind_same (m1 m2 k1 k2 : M World.t unit) (w : World.t) :
  fst (m1 w) = fst (m2 w) ->
  (fst (m1 w) = Ok tt -> m1 w = (Ok tt, w)) ->
  (fst (m2 w) = Ok tt -> m2 w = (Ok tt, w)) ->
  fst (k1 w) = fst (k2 w) ->
  fst (bind m1 (fun _ => k1) w) = fst (bind m2 (fun _ => k2) w).
Proof.
  unfold bind. intros Hsame Hpass1 Hpass2 Hrest.
  destruct (m1 w) as [[[]|e1] w1], (m2 w) as [[[]|e2] w2];
    simpl in *; try discriminate.
  - specialize (Hpass1 eq_refl). specialize (Hpass2 eq_refl).
    injection Hpass1 as ->. injection Hpass2 as ->. exact Hrest.
  - exact Hsame.
Qed.

(** X2: The diagnostic of the validator does not depend on [protect]: with
    and without it the validator passes the same meshes and raises the
    same exception, with the same message, on the others. The flag only
    decides what is done to the host before the exception leaves. *)
Theorem _check_bm_quality_same_diagnostic (protect : bool) (w : World.t) :
  fst (_check_bm_quality protect w) = fst (_check_bm_quality true w).
Proof.
  unfold _check_bm_quality.
  rewrite !(bind_ok get _ w w w eq_refl).
  do 6 (apply fst_bind_same;
        [ auto using _check_bm_manifold_verts_fst, _check_bm_manifold_edges_fst,
            _check_bm_degenerate_edges_fst, _check_bm_degenerate_faces_fst,
            _check_bm_loose_vertices_fst, _check_bm_duplicate_vertices_fst
        | auto using _check_bm_manifold_verts_pass,
            _check_bm_manifold_edges_pass, _check_bm_degenerate_edges_pass,
            _check_bm_degenerate_faces_pass, _check_bm_loose_vertices_pass,
            _check_bm_duplicate_vertices_pass
        | auto using _check_bm_manifold_verts_pass,
            _check_bm_manifold_edges_pass, _check_bm_degenerate_edges_pass,
            _check_bm_degenerate_faces_pass, _check_bm_loose_vertices_pass,
            _check_bm_duplicate_vertices_pass
        | ]).
  apply _check_bm_normals_fst.
Qed.

(** ** What a failure without protect does to the host *)

Ltac edits_check :=
  unfold edits_on_failure, bind, get;
  let Hbad := fresh "Hbad" in
  let Hrun := fresh "Hrun" in
  let Hedit := fresh "Hedit" in
  let w' := fresh "w'" in
  match goal with
  | |- context [nonempty ?bad] => destruct (nonempty bad) eqn:Hbad
  end;
  [ match goal with
    | |- context [_raise_bad_geometry ?msg false ?bv ?be ?bf ?w] =>
        destruct (_raise_bad_geometry_edit msg bv be bf w)
          as (w' & Hrun & Hedit & _);
        [ simpl; now rewrite Hbad | rewrite Hrun; intros; exact Hedit ]
    end
  | unfold ret; simpl; discriminate ].

Lemma edits_manifold_verts (el ea : Q) (w : World.t) :
  edits_on_failure w (_check_bm_manifold_verts el ea false w).
Proof. unfold _check_bm_manifold_verts. edits_check. Qed.

Lemma edits_manifold_edges (el ea : Q) (w : World.t) :
  edits_on_failure w (_check_bm_manifold_edges el ea false w).
Proof. unfold _check_bm_manifold_edges. edits_check. Qed.

Lemma edits_degenerate_edges (el ea : Q) (w : World.t) :
  edits_on_failure w (_check_bm_degenerate_edges el ea false w).
Proof. unfold _check_bm_degenerate_edges. edits_check. Qed.

Lemma edits_degenerate_faces (el ea : Q) (w : World.t) :
  edits_on_failure w (_check_bm_degenerate_faces el ea false w).
Proof. unfold _check_bm_degenerate_faces. edits_check. Qed.

Lemma edits_loose_vertices (el ea : Q) (w : World.t) :
  edits_on_failure w (_check_bm_loose_vertices el ea false w).
Proof. unfold _check_bm_loose_vertices. edits_check. Qed.

Lemma edits_duplicate_vertices (el ea : Q) (w : World.t) :
  edits_on_failure w (_check_bm_duplicate_vertices el ea false w).
Proof.
  unfold _check_bm_duplicate_vertices.
  destruct (duplicate_vertices (World.bm w) el) as [bad|e] eqn:Hdup.
  - unfold edits_on_failure, bind, get. rewrite Hdup.
    destruct (nonempty bad) eqn:Hbad.
    + destruct (_raise_bad_geometry_edit
                  (msg_duplicate_vertices (List.length bad)) bad [] [] w)
        as (w' & Hrun & Hedit & _).
      { simpl. now rewrite Hbad. }
      rewrite Hrun. intros. exact Hedit.
    + unfold ret. simpl. discriminate.
  - unfold edits_on_failure, bind, get. rewrite Hdup.
    apply collect_groups_raise in Hdup as [-> | ->]; simpl; discriminate.
Qed.

Lemma edits_normals (el ea : Q) (w : World.t) :
  edits_on_failure w (_check_bm_normals el ea false w).
Proof.
  unfold _check_bm_normals, edits_on_failure, bind, get.
  match goal with
  | |- context [nonempty ?bad] => destruct (nonempty bad) eqn:Hbad
  end.
  - match goal with
    | |- context [_raise_bad_geometry ?msg false ?bv ?be ?bf w] =>
        destruct (_raise_bad_geometry_edit msg bv be bf w)
          as (w' & Hrun & Hedit & _)
    end.
    { simpl. now rewrite Hbad. }
    rewrite Hrun. intros. exact Hedit.
  - unfold ret. simpl. discriminate.
Qed.

Lemma edits_bind (m k : M World.t unit) (w : World.t) :
  (fst (m w) = Ok tt -> m w = (Ok tt, w)) ->
  edits_on_failure w (m w) ->
  edits_on_failure w (k w) ->
  edits_on_failure w (bind m (fun _ => k) w).
Proof.
  unfold bind. intros Hpass Hm Hk.
  destruct (m w) as [[[]|e] w1].
  - specialize (Hpass eq_refl). injection Hpass as ->. exact Hk.
  - exact Hm.
Qed.

(** X12: When the validator, run without [protect], fails with the exception
    of the object, the host has been prepared for editing: the object has
    lost its modifiers, its mesh data is the bmesh under inspection (freed
    after it was written), and it is the active and only selected object,
    in edit mode. *)
Theorem _check_bm_quality_failure_edits_host (w : World.t)
  (ob_name msg : string) :
  fst (_check_bm_quality false w) = Raise (BFException ob_name msg) ->
  left_for_editing w (snd (_check_bm_quality false w)).
Proof.
  enough (Hedits : edits_on_failure w (_check_bm_quality false w))
    by apply Hedits.
  unfold _check_bm_quality.
  rewrite (bind_ok get _ w w w eq_refl).
  do 6 (apply edits_bind;
        [ auto using _check_bm_manifold_verts_pass,
            _check_bm_manifold_edges_pass, _check_bm_degenerate_edges_pass,
            _check_bm_degenerate_faces_pass, _check_bm_loose_vertices_pass,
            _check_bm_duplicate_vertices_pass
        | auto using edits_manifold_verts, edits_manifold_edges,
            edits_degenerate_edges, edits_degenerate_faces,
            edits_loose_vertices, edits_duplicate_vertices
        | ]).
  apply edits_normals.
Qed.

(** ** The meshes that the validator accepts *)

Lemma fst_bind_pass (m k : M World.t unit) (w : World.t) :
  (fst (m w) = Ok tt -> m w = (Ok tt, w)) ->
  (fst (bind m (fun _ => k) w) = Ok tt
   <-> fst (m w) = Ok tt /\ fst (k w) = Ok tt).
Proof.
  unfold bind. intros Hpass.
  destruct (m w) as [[[]|e] w1]; simpl.
  - specialize (Hpass eq_refl). injection Hpass as ->. tauto.
  - split; [discriminate | intros [Hm _]; discriminate].
Qed.

Lemma bind_pass_state (m k : M World.t unit) (w : World.t) :
  (fst (m w) = Ok tt -> m w = (Ok tt, w)) ->
  fst (m w) = Ok tt ->
  bind m (fun _ => k) w = k w.
Proof.
  intros Hpass Hm. unfold bind. now rewrite (Hpass Hm).
Qed.

Lemma _check_bm_quality_pass_iff (protect : bool) (w : World.t) :
  fst (_check_bm_quality protect w) = Ok tt <->
  Forall (fun c : M World.t unit => fst (c w) = Ok tt)
         (quality_checks
            (Context.bf_config_min_edge_length (Scene.context (World.scene w)))
            (Context.bf_config_min_face_area (Scene.context (World.scene w)))
            protect).
Proof.
  unfold _check_bm_quality, quality_checks.
  rewrite (bind_ok get _ w w w eq_refl).
  rewrite !fst_bind_pass
    by auto using _check_bm_manifold_verts_pass,
         _check_bm_manifold_edges_pass, _check_bm_degenerate_edges_pass,
         _check_bm_degenerate_faces_pass, _check_bm_loose_vertices_pass,
         _check_bm_duplicate_vertices_pass.
  split.
  - intros (H1 & H2 & H3 & H4 & H5 & H6 & H7).
    repeat (apply Forall_cons; [assumption|]). apply Forall_nil.
  - intros Hall.
    repeat (apply Forall_cons_iff in Hall as [? Hall]).
    repeat split; assumption.
Qed.

Lemma _check_bm_quality_pass (protect : bool) (w : World.t) :
  fst (_check_bm_quality protect w) = Ok tt ->
  _check_bm_quality protect w =
  (Ok tt, if protect then w else set_bm recalc_face_normals w).
Proof.
  intros Hpass. pose proof Hpass as Hall.
  apply _check_bm_quality_pass_iff in Hall.
  unfold quality_checks in Hall.
  repeat (apply Forall_cons_iff in Hall as [? Hall]).
  unfold _check_bm_quality.
  rewrite (bind_ok get _ w w w eq_refl).
  rewrite !bind_pass_state
    by (assumption
        || auto using _check_bm_manifold_verts_pass,
             _check_bm_manifold_edges_pass, _check_bm_degenerate_edges_pass,
             _check_bm_degenerate_faces_pass, _check_bm_loose_vertices_pass,
             _check_bm_duplicate_vertices_pass).
  now apply _check_bm_normals_pass.
Qed.

(** X5: When [check_geom_quality] returns, the scene is as it was, with or
    without [protect]: the recalculation of the normals that the last
    check makes without [protect] is made on the bmesh of the check,
    which is freed and never written back to the object. *)
Theorem check_geom_quality_pass_keeps_scene (protect : bool) (sc : Scene.t) :
  fst (check_geom_quality protect sc) = Ok tt ->
  snd (check_geom_quality protect sc) = sc.
Proof.
  unfold check_geom_quality, bind, get, lift, in_world, modify.
  destruct (get_object_bmesh _ _ _ _ _ _) as [bm|e]; [|discriminate].
  destruct (_check_bm_quality protect (World.mk sc bm)) as [[[]|e] w] eqn:Hrun.
  - intros _.
    pose proof (_check_bm_quality_pass protect (World.mk sc bm)) as Hpass.
    rewrite Hrun in Hpass. specialize (Hpass eq_refl).
    injection Hpass as ->. destruct protect; reflexivity.
  - discriminate.
Qed.

Lemma handles_where_nil {A} (p : A -> bool) (l : list A) :
  handles_where p l = [] <-> Forall (fun a => p a = false) l.
Proof.
  split.
  - intros Hnil. apply Forall_forall. intros a Ha.
    destruct (p a) eqn:Hp; [|reflexivity].
    apply In_nth_error in Ha as [i Hi].
    assert (Hin : In i (handles_where p l))
      by (apply in_handles_where; eauto).
    rewrite Hnil in Hin. destruct Hin.
  - intros Hall. destruct (handles_where p l) as [|i rest] eqn:Hbad;
      [reflexivity|].
    assert (Hin : In i (handles_where p l)) by (rewrite Hbad; now left).
    apply in_handles_where in Hin as (a & Hnth & Hp).
    apply nth_error_In in Hnth.
    rewrite Forall_forall in Hall. rewrite (Hall a Hnth) in Hp. discriminate.
Qed.

Lemma Forall_pointwise_iff {A} (P P' : A -> Prop) (l : list A) :
  (forall a, P a <-> P' a) -> (Forall P l <-> Forall P' l).
Proof.
  intros Hiff. split; apply Forall_impl; intros a; apply Hiff.
Qed.

Lemma raise_or_ret_pass (bad : list nat) (raising : M World.t unit)
  (w : World.t) :
  fst (raising w) <> Ok tt ->
  (fst ((if nonempty bad then raising else ret tt) w) = Ok tt <-> bad = []).
Proof.
  intros Hraise. destruct bad as [|i rest]; simpl.
  - split; reflexivity.
  - split; [contradiction | discriminate].
Qed.

Ltac pass_iff_bad :=
  unfold bind, get;
  rewrite raise_or_ret_pass by apply _raise_bad_geometry_never_ok;
  rewrite handles_where_nil.

Lemma _check_bm_manifold_verts_pass_iff (el ea : Q) (protect : bool)
  (w : World.t) :
  fst (_check_bm_manifold_verts el ea protect w) = Ok tt <->
  Forall (fun v => BMVert.is_manifold v = true) (BMesh.verts (World.bm w)).
Proof.
  unfold _check_bm_manifold_verts. pass_iff_bad.
  apply Forall_pointwise_iff. intros v. destruct (BMVert.is_manifold v); simpl;
    split; congruence.
Qed.

Lemma _check_bm_manifold_edges_pass_iff (el ea : Q) (protect : bool)
  (w : World.t) :
  fst (_check_bm_manifold_edges el ea protect w) = Ok tt <->
  Forall (fun e => BMEdge.is_manifold e = true) (BMesh.edges (World.bm w)).
Proof.
  unfold _check_bm_manifold_edges. pass_iff_bad.
  apply Forall_pointwise_iff. intros e. destruct (BMEdge.is_manifold e); simpl;
    split; congruence.
Qed.

Lemma Qle_bool_false (a b : Q) : Qle_bool a b = false <-> ~ a <= b.
Proof.
  rewrite <- Qle_bool_iff. destruct (Qle_bool a b); split; congruence.
Qed.

Lemma _check_bm_degenerate_edges_pass_iff (el ea : Q) (protect : bool)
  (w : World.t) :
  fst (_check_bm_degenerate_edges el ea protect w) = Ok tt <->
  Forall (fun e => ~ BMEdge.calc_length e <= el) (BMesh.edges (World.bm w)).
Proof.
  unfold _check_bm_degenerate_edges. pass_iff_bad.
  apply Forall_pointwise_iff. intros e. apply Qle_bool_false.
Qed.

Lemma _check_bm_degenerate_faces_pass_iff (el ea : Q) (protect : bool)
  (w : World.t) :
  fst (_check_bm_degenerate_faces el ea protect w) = Ok tt <->
  Forall (fun f => ~ BMFace.calc_area f <= ea) (BMesh.faces (World.bm w)).
Proof.
  unfold _check_bm_degenerate_faces, degenerate_faces. pass_iff_bad.
  apply Forall_pointwise_iff. intros f. apply Qle_bool_false.
Qed.

Lemma _check_bm_loose_vertices_pass_iff (el ea : Q) (protect : bool)
  (w : World.t) :
  fst (_check_bm_loose_vertices el ea protect w) = Ok tt <->
  Forall (fun v => BMVert.link_edges v <> []) (BMesh.verts (World.bm w)).
Proof.
  unfold _check_bm_loose_vertices. pass_iff_bad.
  apply Forall_pointwise_iff. intros v. destruct (BMVert.link_edges v); simpl;
    split; congruence.
Qed.

Lemma _check_bm_normals_pass_iff (el ea : Q) (protect : bool) (w : World.t) :
  fst (_check_bm_normals el ea protect w) = Ok tt <->
  Forall (fun e => BMEdge.is_contiguous e = true) (BMesh.edges (World.bm w)).
Proof.
  rewrite _check_bm_normals_fst.
  transitivity (handles_where (fun e => negb (BMEdge.is_contiguous e))
                              (BMesh.edges (World.bm w)) = []).
  - unfold _check_bm_normals, bind, get.
    destruct (handles_where _ _) as [|i rest]; simpl.
    + split; reflexivity.
    + split; discriminate.
  - rewrite handles_where_nil. apply Forall_pointwise_iff.
    intros e. destruct (BMEdge.is_contiguous e); simpl; split; congruence.
Qed.

Lemma _check_bm_duplicate_vertices_pass_iff (el ea : Q) (protect : bool)
  (w : World.t) :
  0 <= el ->
  (fst (_check_bm_duplicate_vertices el ea protect w) = Ok tt <->
   forall i, ~ has_neighbour el (BMesh.verts (World.bm w)) i).
Proof.
  intros Hel. unfold _check_bm_duplicate_vertices, bind, get.
  rewrite duplicate_vertices_run by exact Hel.
  assert (Hnil : reported_groups (BMesh.verts (World.bm w)) el = [] <->
                 forall i, ~ has_neighbour el (BMesh.verts (World.bm w)) i).
  { split.
    - intros Hgroups i Hi. apply in_reported_groups in Hi.
      rewrite Hgroups in Hi. destruct Hi.
    - intros Hnone.
      destruct (reported_groups (BMesh.verts (World.bm w)) el) as [|i rest]
        eqn:Hgroups; [reflexivity|].
      exfalso. apply (Hnone i), in_reported_groups. rewrite Hgroups. now left. }
  rewrite <- Hnil.
  destruct (BMesh.verts_lookup (World.bm w)).
  - now rewrite raise_or_ret_pass by apply _raise_bad_geometry_never_ok.
  - destruct (reported_groups (BMesh.verts (World.bm w)) el); simpl.
    + split; reflexivity.
    + split; discriminate.
Qed.

(** X6: For a minimum edge length that is not negative, the validator returns
    exactly on the meshes that are clean: every vertex and every edge is
    manifold, no edge is as short as the minimum length, no face as small
    as the minimum area, every vertex has an edge, no vertex has another
    one within the minimum length, and every edge is contiguous. This
    holds with and without [protect]. *)
Theorem _check_bm_quality_accepts_clean (protect : bool) (w : World.t) :
  let epsilon_len :=
    Context.bf_config_min_edge_length (Scene.context (World.scene w)) in
  let epsilon_area :=
    Context.bf_config_min_face_area (Scene.context (World.scene w)) in
  0 <= epsilon_len ->
  (fst (_check_bm_quality protect w) = Ok tt
   <-> clean_mesh epsilon_len epsilon_area (World.bm w)).
Proof.
  intros el ea Hel.
  rewrite _check_bm_quality_pass_iff. fold el ea.
  unfold quality_checks, clean_mesh.
  rewrite !Forall_cons_iff.
  rewrite _check_bm_manifold_verts_pass_iff, _check_bm_manifold_edges_pass_iff,
    _check_bm_degenerate_edges_pass_iff, _check_bm_degenerate_faces_pass_iff,
    _check_bm_loose_vertices_pass_iff, _check_bm_normals_pass_iff,
    (_check_bm_duplicate_vertices_pass_iff el ea protect w Hel).
  split.
  - intros (H1 & H2 & H3 & H4 & H5 & H6 & H7 & _). repeat split; assumption.
  - intros (H1 & H2 & H3 & H4 & H5 & H6 & H7).
    repeat split; try assumption. apply Forall_nil.
Qed.

(** ** How often a duplicate vertex is listed *)

Lemma count_occ_flat_map_one {A} (f : A -> list nat) (l : list A) (x : nat) :
  forall j b,
    nth_error l j = Some b ->
    (count_occ Nat.eq_dec (f b) x
     <= count_occ Nat.eq_dec (flat_map f l) x)%nat.
Proof.
  induction l as [|c l IH]; intros j b Hj.
  - destruct j; discriminate.
  - simpl flat_map. rewrite count_occ_app. destruct j as [|j]; simpl in Hj.
    + injection Hj as ->. lia.
    + specialize (IH j b Hj). lia.
Qed.

Lemma count_occ_flat_map_two {A} (f : A -> list nat) (l : list A) (x : nat) :
  forall i j a b,
    i <> j ->
    nth_error l i = Some a ->
    nth_error l j = Some b ->
    (count_occ Nat.eq_dec (f a) x + count_occ Nat.eq_dec (f b) x
     <= count_occ Nat.eq_dec (flat_map f l) x)%nat.
Proof.
  induction l as [|c l IH]; intros i j a b Hne Hi Hj.
  - destruct i; discriminate.
  - simpl flat_map. rewrite count_occ_app.
    destruct i as [|i], j as [|j]; simpl in Hi, Hj.
    + congruence.
    + injection Hi as ->.
      pose proof (count_occ_flat_map_one f l x j b Hj). lia.
    + injection Hj as ->.
      pose proof (count_occ_flat_map_one f l x i a Hi). lia.
    + assert (Hne' : i <> j) by congruence.
      specialize (IH i j a b Hne' Hi Hj). lia.
Qed.

Lemma duplicate_vertices_negative (bm : BMesh.t) (radius : Q)
  (bad_verts : list nat) :
  ~ 0 <= radius ->
  duplicate_vertices bm radius = Ok bad_verts ->
  bad_verts = [].
Proof.
  intros Hneg. apply Qle_bool_false in Hneg.
  unfold duplicate_vertices.
  destruct (BMesh.verts bm) as [|v vs]; simpl.
  - intros Hrun. now injection Hrun as <-.
  - unfold find_range. rewrite Hneg. discriminate.
Qed.

(** X7: The list of duplicate vertices names every vertex it reports at least
    twice: once in the group found around the vertex itself and once in the
    group found around each of its neighbours. The number of vertices in
    the message "Duplicate vertices detected (n vertices)." is the length
    of this list, and so at least twice the number of offending
    vertices. *)
Theorem duplicate_vertices_listed_twice (bm : BMesh.t) (radius : Q)
  (bad_verts : list nat) (i : nat) :
  duplicate_vertices bm radius = Ok bad_verts ->
  In i bad_verts ->
  (2 <= count_occ Nat.eq_dec bad_verts i)%nat.
Proof.
  intros Hrun Hi.
  destruct (Qlt_le_dec radius 0) as [Hneg|Hradius].
  { apply Qlt_not_le in Hneg.
    rewrite (duplicate_vertices_negative bm radius bad_verts Hneg Hrun) in Hi.
    destruct Hi. }
  apply duplicate_vertices_ok in Hrun; [|exact Hradius]. subst bad_verts.
  apply in_reported_groups in Hi as (j & vi & vj & Hne & Hvi & Hvj & Hnear).
  unfold reported_groups.
  assert (Hii : In i (group_of (BMesh.verts bm) radius (BMVert.co vi)))
    by (apply in_group_of; exists vi; split; [exact Hvi | apply within_refl]).
  assert (Hij : In j (group_of (BMesh.verts bm) radius (BMVert.co vi)))
    by (apply in_group_of; exists vj; split; [exact Hvj | exact Hnear]).
  assert (Hji : In i (group_of (BMesh.verts bm) radius (BMVert.co vj)))
    by (apply in_group_of; exists vi; split;
        [exact Hvi | now apply within_sym]).
  assert (Hjj : In j (group_of (BMesh.verts bm) radius (BMVert.co vj)))
    by (apply in_group_of; exists vj; split; [exact Hvj | apply within_refl]).
  pose proof (two_members_length _ _ _ Hii Hij Hne) as Hleni.
  pose proof (two_members_length _ _ _ Hji Hjj Hne) as Hlenj.
  apply Nat.ltb_lt in Hleni, Hlenj.
  pose proof (count_occ_flat_map_two
                (fun v =>
                   if (1 <? List.length
                              (group_of (BMesh.verts bm) radius (BMVert.co v)))%nat
                   then group_of (BMesh.verts bm) radius (BMVert.co v)
                   else [])
                (BMesh.verts bm) i i j vi vj Hne Hvi Hvj) as Hcount.
  cbv beta in Hcount. rewrite Hleni, Hlenj in Hcount.
  apply (count_occ_In Nat.eq_dec) in Hii, Hji.
  lia.
Qed.

(** ** The elements that are selected *)

Lemma update_at_nth {A} (f : A -> A) (l : list A) :
  forall i j,
    nth_error (update_at j f l) i =
    if (i =? j)%nat then option_map f (nth_error l i) else nth_error l i.
Proof.
  induction l as [|a l IH]; intros i j.
  - destruct i, j; simpl; try reflexivity. now destruct (i =? j)%nat.
  - destruct i as [|i], j as [|j]; simpl; try reflexivity. apply IH.
Qed.

Lemma update_all_nth {A} (f : A -> A) (bad : list nat) :
  (forall a, f (f a) = f a) ->
  forall (l : list A) i,
    nth_error (update_all bad f l) i =
    option_map (fun a => if existsb (Nat.eqb i) bad then f a else a)
               (nth_error l i).
Proof.
  intros Hidem. unfold update_all.
  induction bad as [|j bad IH]; intros l i; simpl.
  - destruct (nth_error l i); reflexivity.
  - rewrite IH, update_at_nth.
    destruct (i =? j)%nat; simpl; destruct (nth_error l i) as [a|]; simpl;
      try reflexivity.
    rewrite Hidem. now destruct (existsb (Nat.eqb i) bad).
Qed.

Lemma existsb_eqb_In (i : nat) (l : list nat) :
  existsb (Nat.eqb i) l = true <-> In i l.
Proof.
  rewrite existsb_exists. split.
  - intros (j & Hj & Heq). apply Nat.eqb_eq in Heq. now subst.
  - intros Hi. exists i. split; [exact Hi | apply Nat.eqb_refl].
Qed.

Lemma length_update_all {A} (f : A -> A) (bad : list nat) (l : list A) :
  List.length (update_all bad f l) = List.length l.
Proof.
  unfold update_all. revert l.
  induction bad as [|j bad IH]; intros l; simpl; [reflexivity|].
  rewrite IH. clear IH. revert j.
  induction l as [|a l IHl]; intros [|j]; simpl; auto.
Qed.

Lemma map_update_all {A B} (g : A -> B) (f : A -> A) (bad : list nat)
  (l : list A) :
  (forall a, g (f a) = g a) ->
  map g (update_all bad f l) = map g l.
Proof.
  intros Hg. unfold update_all. revert l.
  induction bad as [|j bad IH]; intros l; simpl; [reflexivity|].
  rewrite IH. clear IH. revert j.
  induction l as [|a l IHl]; intros [|j]; simpl; auto.
  - now rewrite Hg.
  - now rewrite IHl.
Qed.

(** The flag of element [i] after [for b in bad: b.select = True]. *)
Lemma selected_update_all {A} (sel : A -> bool) (f : A -> A)
  (bad : list nat) (l : list A) (i : nat) :
  (forall a, sel (f a) = true) ->
  (forall a, f (f a) = f a) ->
  match nth_error (update_all bad f l) i with
  | Some a => sel a
  | None => false
  end =
  (match nth_error l i with Some a => sel a | None => false end)
  || (existsb (Nat.eqb i) bad && (i <? List.length l)).
Proof.
  intros Hsel Hidem. rewrite update_all_nth by exact Hidem.
  destruct (nth_error l i) as [a|] eqn:Hnth; simpl.
  - assert (Hlt : (i <? List.length l) = true).
    { apply Nat.ltb_lt, nth_error_Some. congruence. }
    rewrite Hlt, andb_true_r.
    destruct (existsb (Nat.eqb i) bad); [|now rewrite orb_false_r].
    now rewrite Hsel, orb_true_r.
  - apply nth_error_None in Hnth.
    assert (Hge : (i <? List.length l) = false) by (apply Nat.ltb_ge; lia).
    now rewrite Hge, andb_false_r.
Qed.


Lemma nth_error_map_eq {A B} (g : A -> B) (l l' : list A) (i : nat) :
  map g l' = map g l ->
  option_map g (nth_error l' i) = option_map g (nth_error l i).
Proof.
  intros Hmap. now rewrite <- !nth_error_map, Hmap.
Qed.

Lemma ends_at_ext (bm bm' : BMesh.t) (j : nat) :
  map BMEdge.verts (BMesh.edges bm') = map BMEdge.verts (BMesh.edges bm) ->
  ends_at bm' j = ends_at bm j.
Proof.
  intros Hends. apply (nth_error_map_eq _ _ _ j) in Hends.
  unfold ends_at.
  destruct (nth_error (BMesh.edges bm') j), (nth_error (BMesh.edges bm) j);
    simpl in Hends; try discriminate; [|reflexivity].
  injection Hends as ->. reflexivity.
Qed.

Lemma loop_at_ext (bm bm' : BMesh.t) (k : nat) :
  map BMFace.verts (BMesh.faces bm') = map BMFace.verts (BMesh.faces bm) ->
  loop_at bm' k = loop_at bm k.
Proof.
  intros Hloops. apply (nth_error_map_eq _ _ _ k) in Hloops.
  unfold loop_at.
  destruct (nth_error (BMesh.faces bm') k), (nth_error (BMesh.faces bm) k);
    simpl in Hloops; try discriminate; [|reflexivity].
  now injection Hloops.
Qed.

Lemma around_at_ext (bm bm' : BMesh.t) (k : nat) :
  map BMFace.edges (BMesh.faces bm') = map BMFace.edges (BMesh.faces bm) ->
  around_at bm' k = around_at bm k.
Proof.
  intros Hedges. apply (nth_error_map_eq _ _ _ k) in Hedges.
  unfold around_at.
  destruct (nth_error (BMesh.faces bm') k), (nth_error (BMesh.faces bm) k);
    simpl in Hedges; try discriminate; [|reflexivity].
  now injection Hedges.
Qed.

Lemma existsb_pointwise {A} (f g : A -> bool) (l : list A) :
  (forall a, f a = g a) -> existsb f l = existsb g l.
Proof.
  intros Hfg. induction l as [|a l IH]; simpl; [reflexivity|].
  now rewrite Hfg, IH.
Qed.

Lemma orb_andb_join (v a b l : bool) :
  (v || (a && l)) || (b && l) = v || ((a || b) && l).
Proof. now destruct v, a, b, l. Qed.

(** What [select_verts], [select_edge] and [select_face] do to the
    flags. *)
Lemma select_verts_flags (bad : list nat) (bm : BMesh.t) (i : nat) :
  vert_selected (select_verts bad bm) i =
  vert_selected bm i
  || (existsb (Nat.eqb i) bad && (i <? List.length (BMesh.verts bm))).
Proof.
  unfold vert_selected, select_verts. cbn [BMesh.verts].
  now apply selected_update_all.
Qed.

Lemma select_edge_verts (j : nat) (bm : BMesh.t) (i : nat) :
  vert_selected (select_edge j bm) i =
  vert_selected bm i
  || (existsb (Nat.eqb i) (ends_at bm j)
      && (i <? List.length (BMesh.verts bm))).
Proof.
  unfold select_edge, ends_at.
  destruct (nth_error (BMesh.edges bm) j) as [e|].
  - unfold vert_selected. cbn [BMesh.verts].
    now apply selected_update_all.
  - simpl. now rewrite orb_false_r.
Qed.

Lemma select_edge_edges (j : nat) (bm : BMesh.t) (i : nat) :
  edge_selected (select_edge j bm) i =
  edge_selected bm i
  || (existsb (Nat.eqb i) [j] && (i <? List.length (BMesh.edges bm))).
Proof.
  unfold select_edge.
  destruct (nth_error (BMesh.edges bm) j) as [e|] eqn:Hj.
  - unfold edge_selected. cbn [BMesh.edges].
    change (update_at j (BMEdge.set_select true) (BMesh.edges bm))
      with (update_all [j] (BMEdge.set_select true) (BMesh.edges bm)).
    now apply selected_update_all.
  - apply nth_error_None in Hj. simpl. rewrite orb_false_r.
    destruct (Nat.eqb_spec i j) as [->|_]; simpl.
    + assert (Hge : (j <? List.length (BMesh.edges bm)) = false)
        by (apply Nat.ltb_ge; lia).
      now rewrite Hge, orb_false_r.
    + now rewrite orb_false_r.
Qed.

Lemma select_edge_frame (j : nat) (bm : BMesh.t) :
  map BMEdge.verts (BMesh.edges (select_edge j bm)) =
  map BMEdge.verts (BMesh.edges bm)
  /\ BMesh.faces (select_edge j bm) = BMesh.faces bm
  /\ List.length (BMesh.verts (select_edge j bm)) =
     List.length (BMesh.verts bm).
Proof.
  unfold select_edge.
  destruct (nth_error (BMesh.edges bm) j) as [e|]; [|auto].
  cbn [BMesh.verts BMesh.edges BMesh.faces].
  split; [|split; [reflexivity | apply length_update_all]].
  change (update_at j (BMEdge.set_select true) (BMesh.edges bm))
    with (update_all [j] (BMEdge.set_select true) (BMesh.edges bm)).
  now apply map_update_all.
Qed.

Lemma select_edges_flags (bad : list nat) :
  forall bm : BMesh.t,
    (forall i,
        vert_selected (select_edges bad bm) i =
        vert_selected bm i
        || (existsb (fun j => existsb (Nat.eqb i) (ends_at bm j)) bad
            && (i <? List.length (BMesh.verts bm))))
    /\ (forall i,
           edge_selected (select_edges bad bm) i =
           edge_selected bm i
           || (existsb (Nat.eqb i) bad
               && (i <? List.length (BMesh.edges bm))))
    /\ map BMEdge.verts (BMesh.edges (select_edges bad bm)) =
       map BMEdge.verts (BMesh.edges bm)
    /\ BMesh.faces (select_edges bad bm) = BMesh.faces bm
    /\ List.length (BMesh.verts (select_edges bad bm)) =
       List.length (BMesh.verts bm).
Proof.
  induction bad as [|j bad IH]; intros bm.
  - simpl. repeat split; intros; now rewrite orb_false_r.
  - change (select_edges (j :: bad) bm)
      with (select_edges bad (select_edge j bm)).
    destruct (IH (select_edge j bm)) as (Hv & He & Hends & Hfaces & Hlen).
    destruct (select_edge_frame j bm) as (Hends1 & Hfaces1 & Hlen1).
    assert (Hlen_e : List.length (BMesh.edges (select_edge j bm)) =
                     List.length (BMesh.edges bm)).
    { rewrite <- (length_map BMEdge.verts), Hends1. apply length_map. }
    split; [|split; [|split; [|split]]].
    + intros i. rewrite Hv, select_edge_verts, Hlen1.
      rewrite (existsb_pointwise
                 (fun j0 => existsb (Nat.eqb i)
                                    (ends_at (select_edge j bm) j0))
                 (fun j0 => existsb (Nat.eqb i) (ends_at bm j0)))
        by (intros j0; now rewrite (ends_at_ext bm _ j0 Hends1)).
      cbn [existsb]. apply orb_andb_join.
    + intros i. rewrite He, select_edge_edges, Hlen_e.
      cbn [existsb]. rewrite orb_false_r. apply orb_andb_join.
    + now rewrite Hends.
    + now rewrite Hfaces.
    + now rewrite Hlen.
Qed.


Lemma select_face_verts (k : nat) (bm : BMesh.t) (i : nat) :
  vert_selected (select_face k bm) i =
  vert_selected bm i
  || (existsb (Nat.eqb i) (loop_at bm k)
      && (i <? List.length (BMesh.verts bm))).
Proof.
  unfold select_face, loop_at.
  destruct (nth_error (BMesh.faces bm) k) as [f|].
  - unfold vert_selected. cbn [BMesh.verts].
    now apply selected_update_all.
  - simpl. now rewrite orb_false_r.
Qed.

Lemma select_face_edges (k : nat) (bm : BMesh.t) (i : nat) :
  edge_selected (select_face k bm) i =
  edge_selected bm i
  || (existsb (Nat.eqb i) (around_at bm k)
      && (i <? List.length (BMesh.edges bm))).
Proof.
  unfold select_face, around_at.
  destruct (nth_error (BMesh.faces bm) k) as [f|].
  - unfold edge_selected. cbn [BMesh.edges].
    now apply selected_update_all.
  - simpl. now rewrite orb_false_r.
Qed.

Lemma select_face_faces (k : nat) (bm : BMesh.t) (i : nat) :
  face_selected (select_face k bm) i =
  face_selected bm i
  || (existsb (Nat.eqb i) [k] && (i <? List.length (BMesh.faces bm))).
Proof.
  unfold select_face.
  destruct (nth_error (BMesh.faces bm) k) as [f|] eqn:Hk.
  - unfold face_selected. cbn [BMesh.faces].
    change (update_at k (BMFace.set_select true) (BMesh.faces bm))
      with (update_all [k] (BMFace.set_select true) (BMesh.faces bm)).
    now apply selected_update_all.
  - apply nth_error_None in Hk. simpl. rewrite orb_false_r.
    destruct (Nat.eqb_spec i k) as [->|_]; simpl.
    + assert (Hge : (k <? List.length (BMesh.faces bm)) = false)
        by (apply Nat.ltb_ge; lia).
      now rewrite Hge, orb_false_r.
    + now rewrite orb_false_r.
Qed.

Lemma select_face_frame (k : nat) (bm : BMesh.t) :
  map BMEdge.verts (BMesh.edges (select_face k bm)) =
  map BMEdge.verts (BMesh.edges bm)
  /\ map BMFace.verts (BMesh.faces (select_face k bm)) =
     map BMFace.verts (BMesh.faces bm)
  /\ map BMFace.edges (BMesh.faces (select_face k bm)) =
     map BMFace.edges (BMesh.faces bm)
  /\ List.length (BMesh.verts (select_face k bm)) =
     List.length (BMesh.verts bm).
Proof.
  unfold select_face.
  destruct (nth_error (BMesh.faces bm) k) as [f|]; [|auto].
  cbn [BMesh.verts BMesh.edges BMesh.faces].
  change (update_at k (BMFace.set_select true) (BMesh.faces bm))
    with (update_all [k] (BMFace.set_select true) (BMesh.faces bm)).
  split; [now apply map_update_all|].
  split; [now apply map_update_all|].
  split; [now apply map_update_all | apply length_update_all].
Qed.

Lemma select_faces_flags (bad : list nat) :
  forall bm : BMesh.t,
    (forall i,
        vert_selected (select_faces bad bm) i =
        vert_selected bm i
        || (existsb (fun k => existsb (Nat.eqb i) (loop_at bm k)) bad
            && (i <? List.length (BMesh.verts bm))))
    /\ (forall i,
           edge_selected (select_faces bad bm) i =
           edge_selected bm i
           || (existsb (fun k => existsb (Nat.eqb i) (around_at bm k)) bad
               && (i <? List.length (BMesh.edges bm))))
    /\ (forall i,
           face_selected (select_faces bad bm) i =
           face_selected bm i
           || (existsb (Nat.eqb i) bad
               && (i <? List.length (BMesh.faces bm))))
    /\ map BMEdge.verts (BMesh.edges (select_faces bad bm)) =
       map BMEdge.verts (BMesh.edges bm)
    /\ map BMFace.verts (BMesh.faces (select_faces bad bm)) =
       map BMFace.verts (BMesh.faces bm)
    /\ map BMFace.edges (BMesh.faces (select_faces bad bm)) =
       map BMFace.edges (BMesh.faces bm)
    /\ List.length (BMesh.verts (select_faces bad bm)) =
       List.length (BMesh.verts bm).
Proof.
  induction bad as [|k bad IH]; intros bm.
  - simpl. repeat split; intros; now rewrite orb_false_r.
  - change (select_faces (k :: bad) bm)
      with (select_faces bad (select_face k bm)).
    destruct (IH (select_face k bm))
      as (Hv & He & Hf & Hends & Hloops & Haround & Hlen).
    destruct (select_face_frame k bm)
      as (Hends1 & Hloops1 & Haround1 & Hlen1).
    assert (Hlen_e : List.length (BMesh.edges (select_face k bm)) =
                     List.length (BMesh.edges bm)).
    { rewrite <- (length_map BMEdge.verts), Hends1. apply length_map. }
    assert (Hlen_f : List.length (BMesh.faces (select_face k bm)) =
                     List.length (BMesh.faces bm)).
    { rewrite <- (length_map BMFace.verts), Hloops1. apply length_map. }
    split; [|split; [|split; [|split; [|split; [|split]]]]].
    + intros i. rewrite Hv, select_face_verts, Hlen1.
      rewrite (existsb_pointwise
                 (fun k0 => existsb (Nat.eqb i)
                                    (loop_at (select_face k bm) k0))
                 (fun k0 => existsb (Nat.eqb i) (loop_at bm k0)))
        by (intros k0; now rewrite (loop_at_ext bm _ k0 Hloops1)).
      cbn [existsb]. apply orb_andb_join.
    + intros i. rewrite He, select_face_edges, Hlen_e.
      rewrite (existsb_pointwise
                 (fun k0 => existsb (Nat.eqb i)
                                    (around_at (select_face k bm) k0))
                 (fun k0 => existsb (Nat.eqb i) (around_at bm k0)))
        by (intros k0; now rewrite (around_at_ext bm _ k0 Haround1)).
      cbn [existsb]. apply orb_andb_join.
    + intros i. rewrite Hf, select_face_faces, Hlen_f.
      cbn [existsb]. rewrite orb_false_r. apply orb_andb_join.
    + now rewrite Hends.
    + now rewrite Hloops.
    + now rewrite Haround.
    + now rewrite Hlen.
Qed.

(** The mesh once everything is deselected. *)
Lemma vert_selected_deselect (bm : BMesh.t) (i : nat) :
  vert_selected (deselect_verts bm) i = false.
Proof.
  unfold vert_selected, deselect_verts. simpl.
  rewrite nth_error_map. now destruct (nth_error (BMesh.verts bm) i).
Qed.

Lemma deselected_flags (bm : BMesh.t) :
  let base := select_flush_false (deselect_verts bm) in
  (forall i, vert_selected base i = false)
  /\ (forall i, edge_selected base i = false)
  /\ (forall k f,
         nth_error (BMesh.faces bm) k = Some f -> BMFace.verts f <> [] ->
         face_selected base k = false)
  /\ map BMEdge.verts (BMesh.edges base) = map BMEdge.verts (BMesh.edges bm)
  /\ map BMFace.verts (BMesh.faces base) = map BMFace.verts (BMesh.faces bm)
  /\ map BMFace.edges (BMesh.faces base) = map BMFace.edges (BMesh.faces bm)
  /\ List.length (BMesh.verts base) = List.length (BMesh.verts bm).
Proof.
  cbv zeta. split; [|split; [|split; [|split; [|split; [|split]]]]].
  - intros i. exact (vert_selected_deselect bm i).
  - intros i. unfold edge_selected, select_flush_false. cbn [BMesh.edges].
    rewrite nth_error_map.
    destruct (nth_error (BMesh.edges (deselect_verts bm)) i) as [e|];
      [|reflexivity].
    simpl. now rewrite !vert_selected_deselect, andb_false_r.
  - intros k f Hk Hverts.
    unfold face_selected, select_flush_false. cbn [BMesh.faces].
    rewrite nth_error_map.
    change (BMesh.faces (deselect_verts bm)) with (BMesh.faces bm).
    rewrite Hk. simpl.
    destruct (BMFace.verts f) as [|v vs]; [congruence|].
    simpl. now rewrite vert_selected_deselect, andb_false_r.
  - unfold select_flush_false. cbn [BMesh.edges]. rewrite map_map.
    reflexivity.
  - unfold select_flush_false. cbn [BMesh.faces]. rewrite map_map.
    reflexivity.
  - unfold select_flush_false. cbn [BMesh.faces]. rewrite map_map.
    reflexivity.
  - unfold select_flush_false, deselect_verts. cbn [BMesh.verts].
    apply length_map.
Qed.


Lemma select_verts_nil (bm : BMesh.t) : select_verts [] bm = bm.
Proof. now destruct bm. Qed.

(** The mesh data and the editor that [_raise_bad_geometry] leaves. *)
Lemma raised_data (msg : string) (bad_verts bad_edges bad_faces : list nat)
  (w : World.t) :
  Object.data
    (Scene.ob
       (World.scene
          (snd (_raise_bad_geometry msg false bad_verts bad_edges bad_faces
                                    w)))) =
  select_verts bad_verts
    (select_edges bad_edges
       (select_faces bad_faces
          (select_flush_false (deselect_verts (World.bm w))))).
Proof.
  destruct bad_verts; [rewrite select_verts_nil|];
    unfold _raise_bad_geometry, bind, get, modify, ret, raise;
    destruct bad_faces, bad_edges; reflexivity.
Qed.

Lemma raised_editor (msg : string) (bad_verts bad_edges bad_faces : list nat)
  (w : World.t) :
  nonempty bad_verts || nonempty bad_edges || nonempty bad_faces = true ->
  let context' :=
    Scene.context
      (World.scene
         (snd (_raise_bad_geometry msg false bad_verts bad_edges bad_faces
                                   w))) in
  Context.select_mode context' = select_type_of bad_verts bad_edges bad_faces
  /\ Context.edit_mesh context' =
     Some (select_flush_mode
             (select_type_of bad_verts bad_edges bad_faces)
             (select_flush_mode
                (Context.select_mode (Scene.context (World.scene w)))
                (select_verts bad_verts
                   (select_edges bad_edges
                      (select_faces bad_faces
                         (select_flush_false
                            (deselect_verts (World.bm w)))))))).
Proof.
  intros Hbad. cbv zeta.
  destruct w as [[[el ea [active|] mode sel sm em] ob] bm];
    (destruct bad_verts; [rewrite select_verts_nil|]);
    unfold _raise_bad_geometry, bind, get, modify, ret, raise,
      mode_set_object_if_active;
    destruct bad_faces, bad_edges; try discriminate; split; reflexivity.
Qed.


Lemma existsb_nested (i : nat) (g : nat -> list nat) (bad : list nat) :
  existsb (fun j => existsb (Nat.eqb i) (g j)) bad = true <->
  exists j, In j bad /\ In i (g j).
Proof.
  rewrite existsb_exists. split; intros (j & Hj & Hi); exists j;
    (split; [exact Hj | now apply existsb_eqb_In]).
Qed.

(** X4: Without [protect], the mesh data that [_raise_bad_geometry] writes
    to the object has the offending elements selected and what they
    bring with them, and nothing else: a vertex is selected exactly when
    it is a bad vertex, an end of a bad edge or a vertex of a bad face; an
    edge exactly when it is a bad edge or an edge of a bad face; a face
    exactly when it is a bad face. What was selected before is
    deselected. The editor then shows this data, flushed for the select
    mode it had and then for the select mode of the offending elements. *)
Theorem _raise_bad_geometry_selects_bad (msg : string)
  (bad_verts bad_edges bad_faces : list nat) (w : World.t) :
  let bm := World.bm w in
  let w' := snd (_raise_bad_geometry msg false bad_verts bad_edges bad_faces
                                     w) in
  let data := Object.data (Scene.ob (World.scene w')) in
  (forall i v,
      nth_error (BMesh.verts bm) i = Some v ->
      (vert_selected data i = true <->
       In i bad_verts
       \/ (exists j, In j bad_edges /\ In i (ends_at bm j))
       \/ (exists k, In k bad_faces /\ In i (loop_at bm k))))
  /\ (forall j e,
         nth_error (BMesh.edges bm) j = Some e ->
         (edge_selected data j = true <->
          In j bad_edges
          \/ (exists k, In k bad_faces /\ In j (around_at bm k))))
  /\ (forall k f,
         nth_error (BMesh.faces bm) k = Some f ->
         BMFace.verts f <> [] ->
         (face_selected data k = true <-> In k bad_faces))
  /\ (bad_verts <> [] \/ bad_edges <> [] \/ bad_faces <> [] ->
      Context.edit_mesh (Scene.context (World.scene w')) =
      Some (select_flush_mode
              (select_type_of bad_verts bad_edges bad_faces)
              (select_flush_mode
                 (Context.select_mode (Scene.context (World.scene w)))
                 data))).
Proof.
  cbv zeta. rewrite raised_data.
  set (base := select_flush_false (deselect_verts (World.bm w))).
  destruct (deselected_flags (World.bm w))
    as (Hv0 & He0 & Hf0 & Hends0 & Hloops0 & Haround0 & Hlen0).
  fold base in Hv0, He0, Hf0, Hends0, Hloops0, Haround0, Hlen0.
  destruct (select_faces_flags bad_faces base)
    as (Hv1 & He1 & Hf1 & Hends1 & Hloops1 & Haround1 & Hlen1).
  destruct (select_edges_flags bad_edges (select_faces bad_faces base))
    as (Hv2 & He2 & Hends2 & Hfaces2 & Hlen2).
  assert (Hends : map BMEdge.verts (BMesh.edges (select_faces bad_faces base))
                  = map BMEdge.verts (BMesh.edges (World.bm w)))
    by now rewrite Hends1.
  assert (Hlen_e : forall bm' : BMesh.t,
             map BMEdge.verts (BMesh.edges bm') =
             map BMEdge.verts (BMesh.edges (World.bm w)) ->
             List.length (BMesh.edges bm') =
             List.length (BMesh.edges (World.bm w))).
  { intros bm' Hmap. rewrite <- (length_map BMEdge.verts), Hmap.
    apply length_map. }
  split; [|split; [|split]].
  - intros i v Hi.
    assert (Hlt : (i <? List.length (BMesh.verts (World.bm w))) = true).
    { apply Nat.ltb_lt, nth_error_Some. congruence. }
    rewrite select_verts_flags, Hv2, Hv1, Hv0, Hlen2, Hlen1, Hlen0, Hlt.
    rewrite !andb_true_r. cbn [orb].
    rewrite (existsb_pointwise
               (fun j => existsb (Nat.eqb i)
                                 (ends_at (select_faces bad_faces base) j))
               (fun j => existsb (Nat.eqb i) (ends_at (World.bm w) j)))
      by (intros j; now rewrite (ends_at_ext (World.bm w) _ j Hends)).
    rewrite (existsb_pointwise
               (fun k => existsb (Nat.eqb i) (loop_at base k))
               (fun k => existsb (Nat.eqb i) (loop_at (World.bm w) k)))
      by (intros k; now rewrite (loop_at_ext (World.bm w) _ k Hloops0)).
    rewrite !orb_true_iff, !existsb_nested, existsb_eqb_In. tauto.
  - intros j e Hj.
    assert (Hlt : (j <? List.length (BMesh.edges (World.bm w))) = true).
    { apply Nat.ltb_lt, nth_error_Some. congruence. }
    unfold edge_selected at 1. unfold select_verts at 1. cbn [BMesh.edges].
    fold (edge_selected (select_edges bad_edges (select_faces bad_faces base))
                        j).
    rewrite He2, He1, He0, (Hlen_e _ Hends), (Hlen_e _ Hends0), Hlt.
    rewrite !andb_true_r. cbn [orb].
    rewrite (existsb_pointwise
               (fun k => existsb (Nat.eqb j) (around_at base k))
               (fun k => existsb (Nat.eqb j) (around_at (World.bm w) k)))
      by (intros k; now rewrite (around_at_ext (World.bm w) _ k Haround0)).
    rewrite !orb_true_iff, !existsb_nested, existsb_eqb_In. tauto.
  - intros k f Hk Hverts.
    assert (Hlt : (k <? List.length (BMesh.faces base)) = true).
    { apply Nat.ltb_lt.
      rewrite <- (length_map BMFace.verts), Hloops0, length_map.
      apply nth_error_Some. congruence. }
    unfold face_selected at 1. unfold select_verts at 1. cbn [BMesh.faces].
    rewrite Hfaces2.
    fold (face_selected (select_faces bad_faces base) k).
    rewrite Hf1, (Hf0 k f Hk Hverts), Hlt, andb_true_r. cbn [orb].
    apply existsb_eqb_In.
  - intros Hbad. apply raised_editor.
    destruct bad_verts, bad_edges, bad_faces; try reflexivity.
    destruct Hbad as [Hbad | [Hbad | Hbad]]; congruence.
Qed.

(** ** Intersected faces *)

Lemma faces_at_ok (bm : BMesh.t) (ifaces : list nat) :
  Forall (fun i => (i < List.length (BMesh.faces bm))%nat) ifaces ->
  faces_at bm ifaces = Ok ifaces.
Proof.
  induction 1 as [|i rest Hi _ IH]; simpl; [reflexivity|].
  apply Nat.ltb_lt in Hi. now rewrite Hi, IH.
Qed.

Lemma faces_at_ok_inv (bm : BMesh.t) (ifaces fs : list nat) :
  faces_at bm ifaces = Ok fs -> fs = ifaces.
Proof.
  revert fs. induction ifaces as [|i rest IH]; intros fs; simpl.
  - intros Hrun. now injection Hrun as <-.
  - destruct (i <? List.length (BMesh.faces bm))%nat; [|discriminate].
    destruct (faces_at bm rest) as [fs'|e]; [|discriminate].
    intros Hrun. injection Hrun as <-. now rewrite (IH fs' eq_refl).
Qed.

Lemma faces_at_raise (bm : BMesh.t) (ifaces : list nat) :
  Exists (fun i => (List.length (BMesh.faces bm) <= i)%nat) ifaces ->
  faces_at bm ifaces = Raise IndexError.
Proof.
  induction ifaces as [|i rest IH]; intros Hex; simpl.
  - inversion Hex.
  - destruct (i <? List.length (BMesh.faces bm))%nat eqn:Hi; [|reflexivity].
    apply Nat.ltb_lt in Hi.
    inversion Hex as [? ? Hbad|? ? Hrest]; subst; [lia|].
    now rewrite (IH Hrest).
Qed.

Lemma in_first_components (pairs : list (nat * nat)) (i : nat) :
  In i (nodup Nat.eq_dec (map fst pairs)) <-> exists j, In (i, j) pairs.
Proof.
  rewrite nodup_In, in_map_iff. split.
  - intros ([i' j] & Hfst & Hin). simpl in Hfst. subst i'. eauto.
  - intros (j & Hin). exists (i, j). auto.
Qed.

(** X8: [_get_bm_intersected_faces] returns each face of the tree that takes
    part in an overlap once, however many triangles of the other tree it
    overlaps, and returns no other face; when the host reports an index
    that is not a face of the bmesh, it fails with an [IndexError]. *)
Theorem _get_bm_intersected_faces_distinct (bm : BMesh.t)
  (tree other_tree : BVHTree) :
  ((forall i j,
       In (i, j) (overlap tree other_tree) ->
       (i < List.length (BMesh.faces bm))%nat) ->
   exists fs,
     _get_bm_intersected_faces bm tree other_tree = Ok fs
     /\ NoDup fs
     /\ forall i, In i fs <-> exists j, In (i, j) (overlap tree other_tree))
  /\ ((exists i j,
          In (i, j) (overlap tree other_tree)
          /\ (List.length (BMesh.faces bm) <= i)%nat) ->
      _get_bm_intersected_faces bm tree other_tree = Raise IndexError).
Proof.
  unfold _get_bm_intersected_faces. split.
  - intros Hrange.
    destruct (overlap tree other_tree) as [|pair pairs] eqn:Hov.
    + exists []. split; [reflexivity|]. split; [constructor|].
      intros i. split; [intros [] | intros [j []]].
    + cbn [nonempty].
      exists (nodup Nat.eq_dec (map fst (pair :: pairs))). split.
      * apply faces_at_ok, Forall_forall. intros i Hi.
        apply in_first_components in Hi as [j Hj]. eauto.
      * split; [apply NoDup_nodup | apply in_first_components].
  - intros (i & j & Hin & Hbad).
    destruct (overlap tree other_tree) as [|pair pairs] eqn:Hov;
      [destruct Hin|].
    cbn [nonempty]. apply faces_at_raise, Exists_exists.
    exists i. split; [|exact Hbad].
    apply in_first_components. eauto.
Qed.

Lemma intersect_others_extends (context : Context.t) (ob : Object.t)
  (bm : BMesh.t) (tree : BVHTree) (epsilon_len : Q)
  (other_obs : list Object.t) :
  forall bad_faces res,
    intersect_others context ob bm tree epsilon_len other_obs bad_faces
    = Ok res ->
    exists more, res = bad_faces ++ more.
Proof.
  induction other_obs as [|other rest IH]; intros bad_faces res; simpl.
  - intros Hrun. injection Hrun as <-. exists []. now rewrite app_nil_r.
  - destruct (inverted (Object.matrix_world ob)); [|discriminate].
    destruct (get_object_bmesh _ _ _ _ _ _); [|discriminate].
    destruct (_get_bm_intersected_faces _ _ _) as [fs|]; [|discriminate].
    intros Hrun. apply IH in Hrun as [more ->].
    exists (fs ++ more). now rewrite app_assoc.
Qed.

(** X9: [check_intersections] never lets a self-intersection pass: when the
    tree of the object overlaps itself the check raises, whatever the other
    objects are and whatever errors they cause, with or without [protect].
    With no other object and no overlap it returns, and all it has done to
    the scene is the switch to OBJECT mode. *)
Theorem check_intersections_self_overlap (other_obs : list Object.t)
  (protect : bool) (sc : Scene.t) (bm : BMesh.t) :
  let context := mode_set_object_if_active (Scene.context sc) in
  let tree := FromBMesh bm (Context.bf_config_min_edge_length context) in
  get_object_bmesh context (Scene.ob sc) None None None (Some true) = Ok bm ->
  (overlap tree tree <> [] ->
   exists e sc', check_intersections other_obs protect sc = (Raise e, sc'))
  /\ (overlap tree tree = [] ->
      check_intersections [] protect sc =
      (Ok tt, Scene.mk context (Scene.ob sc))).
Proof.
  intros context tree Hbm.
  unfold check_intersections, bind, get, modify, lift. cbn [Scene.context Scene.ob].
  fold context. rewrite Hbm. fold tree. split.
  - intros Hov.
    destruct (_get_bm_intersected_faces bm tree tree) as [bad0|e] eqn:Hself;
      [|eauto].
    assert (Hbad0 : bad0 <> []).
    { unfold _get_bm_intersected_faces in Hself.
      destruct (overlap tree tree) as [|[i j] pairs] eqn:Hpairs; [congruence|].
      cbn [nonempty] in Hself. apply faces_at_ok_inv in Hself. subst bad0.
      intros Hnil.
      assert (Hin : In i (nodup Nat.eq_dec (map fst ((i, j) :: pairs))))
        by (apply in_first_components; exists j; now left).
      rewrite Hnil in Hin. destruct Hin. }
    destruct (intersect_others _ _ _ _ _ _ _) as [bad|e] eqn:Hloop; [|eauto].
    apply intersect_others_extends in Hloop as [more ->].
    destruct bad0 as [|f bad0]; [congruence|]. cbn [app nonempty].
    unfold in_world.
    match goal with
    | |- context [_raise_bad_geometry ?msg protect ?bv ?be ?bf ?w] =>
        destruct (_raise_bad_geometry_raises msg protect bv be bf w)
          as (e & w' & ->)
    end.
    eauto.
  - intros Hov. unfold _get_bm_intersected_faces. rewrite Hov. reflexivity.
Qed.

(** ** Extraction with and without the check *)

(** X10: [get_trisurface] with [check] returns a surface exactly when it
    returns that surface without [check] and the validator, run with
    [protect] on the bmesh of the object, passes: the check never changes
    what is exported. *)
Theorem get_trisurface_check_same_surface (scale_length : float) (terrain : bool)
  (sc sc' : Scene.t) (surface : trisurface) :
  get_trisurface scale_length true terrain sc = (Ok surface, sc')
  <-> get_trisurface scale_length false terrain sc = (Ok surface, sc')
      /\ exists bm,
           get_object_bmesh (Scene.context sc) (Scene.ob sc)
                            None (Some true) (Some true) (Some false) = Ok bm
           /\ fst (_check_bm_quality true (World.mk sc bm)) = Ok tt.
Proof.
  rewrite !get_trisurface_unfold.
  destruct (_get_materials (Scene.ob sc)) as [mas|e];
    [|split; [discriminate | intros [Hrun _]; discriminate]].
  destruct (get_object_bmesh _ _ _ _ _ _) as [bm|e];
    [|split; [discriminate | intros [Hrun _]; discriminate]].
  destruct (fst (_check_bm_quality true (World.mk sc bm))) as [[]|e] eqn:Hq.
  - split.
    + intros Hrun. split; [exact Hrun|]. exists bm. split; [reflexivity|].
      exact Hq.
    + intros [Hrun _]. exact Hrun.
  - split; [discriminate|].
    intros (_ & bm' & Hbm & Hpass). injection Hbm as <-. congruence.
Qed.

Lemma face_rows_ok_iff (fs : list BMFace.t)
  (rows : list (nat * nat * nat * nat)) :
  face_rows fs = Ok rows <-> Forall2 row_of_face fs rows.
Proof.
  revert rows. induction fs as [|f fs IH]; intros rows; simpl.
  - split.
    + intros Hrun. injection Hrun as <-. constructor.
    + intros Hall. inversion Hall. reflexivity.
  - unfold face_row. split.
    + destruct (BMFace.verts f) as [|v0 [|v1 [|v2 rest]]] eqn:Hverts;
        try discriminate.
      destruct (face_rows fs) as [rows'|e]; [|discriminate].
      intros Hrun. injection Hrun as <-. constructor.
      * exists v0, v1, v2, rest. auto.
      * now apply IH.
    + intros Hall. inversion Hall as [|? row ? rows' Hrow Hrest]; subst.
      destruct Hrow as (v0 & v1 & v2 & rest & -> & ->).
      apply IH in Hrest. now rewrite Hrest.
Qed.

(** X11: The surface that [get_trisurface] returns has one vertex for each
    vertex of the bmesh and one row for each face, in the order of the
    bmesh; the row of a face holds its first three vertices and its
    material slot, each counted from 1. *)
Theorem get_trisurface_rows (scale_length : float) (check terrain : bool)
  (sc sc' : Scene.t) (mas : list string)
  (verts : list (float * float * float))
  (faces : list (nat * nat * nat * nat)) :
  get_trisurface scale_length check terrain sc = (Ok (mas, verts, faces), sc') ->
  exists bm,
    get_object_bmesh (Scene.context sc) (Scene.ob sc)
                     None (Some true) (Some true) (Some false) = Ok bm
    /\ List.length verts = List.length (BMesh.verts bm)
    /\ Forall2 row_of_face (BMesh.faces bm) faces.
Proof.
  rewrite get_trisurface_unfold.
  destruct (_get_materials (Scene.ob sc)) as [mas0|e]; [|discriminate].
  destruct (get_object_bmesh _ _ _ _ _ _) as [bm|e]; [|discriminate].
  destruct (if check then _ else _) as [[]|e]; [|discriminate].
  destruct (face_rows (BMesh.faces bm)) as [rows|e] eqn:Hrows; [|discriminate].
  intros Hrun. injection Hrun as <- <- <- <-.
  exists bm. split; [reflexivity|]. split; [apply length_map|].
  now apply face_rows_ok_iff.
Qed.

(** ** Tolerances *)

Lemma within_monotone (radius radius' : Q) (a b : BMVert.t) :
  0 <= radius -> radius <= radius' ->
  within radius a b -> within radius' a b.
Proof.
  unfold within. intros Hpos Hle Hnear.
  eapply Qle_trans; [exact Hnear|].
  apply Qmult_le_compat_nonneg; split; assumption.
Qed.

(** X13: Tightening the tolerances never turns an accepted mesh into a
    rejected one: a mesh that the validator passes with a minimum edge
    length and a minimum face area passes it with any smaller minimum
    face area and any smaller minimum edge length that is not negative. *)
Theorem _check_bm_quality_tolerance_monotone (protect : bool)
  (w w' : World.t) :
  let el := Context.bf_config_min_edge_length (Scene.context (World.scene w)) in
  let ea := Context.bf_config_min_face_area (Scene.context (World.scene w)) in
  let el' :=
    Context.bf_config_min_edge_length (Scene.context (World.scene w')) in
  let ea' :=
    Context.bf_config_min_face_area (Scene.context (World.scene w')) in
  World.bm w = World.bm w' ->
  0 <= el -> el <= el' -> ea <= ea' ->
  fst (_check_bm_quality protect w') = Ok tt ->
  fst (_check_bm_quality protect w) = Ok tt.
Proof.
  intros el ea el' ea' Hbm Hpos Hel Hea.
  assert (Hpos' : 0 <= el') by (eapply Qle_trans; eassumption).
  rewrite !_check_bm_quality_pass_iff. fold el ea el' ea'.
  unfold quality_checks. rewrite !Forall_cons_iff.
  rewrite !_check_bm_manifold_verts_pass_iff,
    !_check_bm_manifold_edges_pass_iff, !_check_bm_degenerate_edges_pass_iff,
    !_check_bm_degenerate_faces_pass_iff, !_check_bm_loose_vertices_pass_iff,
    !_check_bm_normals_pass_iff,
    (_check_bm_duplicate_vertices_pass_iff el ea protect w Hpos),
    (_check_bm_duplicate_vertices_pass_iff el' ea' protect w' Hpos').
  rewrite Hbm.
  intros (H1 & H2 & H3 & H4 & H5 & H6 & H7 & _).
  repeat split; try assumption.
  - eapply Forall_impl; [|exact H3]. intros e Hlong Hshort.
    apply Hlong. eapply Qle_trans; eassumption.
  - eapply Forall_impl; [|exact H4]. intros f Hlarge Hsmall.
    apply Hlarge. eapply Qle_trans; eassumption.
  - intros i (j & vi & vj & Hne & Hvi & Hvj & Hnear).
    apply (H6 i). exists j, vi, vj. repeat split; try assumption.
    apply (within_monotone el el'); assumption.
  - apply Forall_nil.
Qed.

(** X14: The outcome of [check_intersections] does not depend on [protect]
    either: with and without it the check returns on the same scenes and
    raises the same exception on the others. *)
Theorem check_intersections_same_diagnostic (other_obs : list Object.t)
  (protect : bool) (sc : Scene.t) :
  fst (check_intersections other_obs protect sc) =
  fst (check_intersections other_obs true sc).
Proof.
  unfold check_intersections, bind, get, modify, lift.
  destruct (get_object_bmesh _ _ _ _ _ _) as [bm|e]; [|reflexivity].
  destruct (_get_bm_intersected_faces _ _ _) as [bad0|e]; [|reflexivity].
  destruct (intersect_others _ _ _ _ _ _ _) as [bad|e]; [|reflexivity].
  destruct (nonempty bad) eqn:Hbad; [|reflexivity].
  unfold in_world.
  match goal with
  | |- fst (let (r, w) := _raise_bad_geometry ?msg protect ?bv ?be ?bf ?w0 in _)
       = _ =>
      pose proof (_raise_bad_geometry_fst msg protect bv be bf w0) as Hp
  end.
  simpl in Hp. rewrite Hbad in Hp. specialize (Hp eq_refl).
  destruct (_raise_bad_geometry _ protect _ _ _ _) as [rp wp].
  simpl in Hp. subst rp. reflexivity.
Qed.

End Properties.

(** * The program on concrete scenes *)

Section Runs.

#[local] Existing Instance Ref.host.
#[local] Existing Instance Ref.utils.

Import Scenes.

Local Open Scope string_scope.

(** C1 fails as stated: on a closed tetrahedron with one short edge and one
    face wound against its neighbours, both manifold checks pass and the
    normal-consistency check fails, yet the validator returns the
    diagnostic of the degenerate-edge check, which the code runs before
    it; with normal consistency third, as the specification orders the
    checks, the diagnostic would be that of the normals. *)
Lemma spec_order_counterexample :
  fst (_check_bm_manifold_verts (1 # 1000) (1 # 100000) true
                                world_short_flipped) = Ok tt
  /\ fst (_check_bm_manifold_edges (1 # 1000) (1 # 100000) true
                                   world_short_flipped) = Ok tt
  /\ _check_bm_normals (1 # 1000) (1 # 100000) true world_short_flipped =
     (Raise (BFException "Cube" "Inconsistent face normals detected (3 edges)."),
      world_short_flipped)
  /\ _check_bm_quality true world_short_flipped =
     (Raise (BFException "Cube" "Too short edges detected (1 edges)."),
      world_short_flipped)
  /\ validate_spec_order true world_short_flipped =
     (Raise (BFException "Cube" "Inconsistent face normals detected (3 edges)."),
      world_short_flipped)
  /\ fst (_check_bm_quality true world_short_flipped)
     <> fst (validate_spec_order true world_short_flipped).
Proof.
  do 5 (split; [reflexivity|]).
  vm_compute. discriminate.
Qed.

Lemma _check_bm_quality_first_failure_witness :
  nth_error (quality_checks (1 # 1000) (1 # 100000) true) 2 =
  Some (_check_bm_degenerate_edges (1 # 1000) (1 # 100000) true)
  /\ _check_bm_degenerate_edges (1 # 1000) (1 # 100000) true
                                world_short_flipped =
     (Raise (BFException "Cube" "Too short edges detected (1 edges)."),
      world_short_flipped)
  /\ _check_bm_quality true world_short_flipped =
     (Raise (BFException "Cube" "Too short edges detected (1 edges)."),
      world_short_flipped).
Proof.
  split; [reflexivity|]. split; [reflexivity|].
  apply (_check_bm_quality_first_failure true world_short_flipped
           world_short_flipped 2
           (_check_bm_degenerate_edges (1 # 1000) (1 # 100000) true)).
  - reflexivity.
  - intros j cj Hj Hnth.
    destruct j as [|[|j]]; [| |lia]; injection Hnth as <-; reflexivity.
  - reflexivity.
Defined.

(** C2 fails as stated: the normal-consistency check, run without
    [protect] on a tetrahedron turned inside out, finds no offending edge
    and returns, and the mesh it leaves is not the mesh it received: the
    faces have been rewound by [recalc_face_normals]. *)
Lemma normals_check_counterexample :
  handles_where (fun edge => negb (BMEdge.is_contiguous edge))
                (BMesh.edges (World.bm world_inside_out)) = []
  /\ fst (_check_bm_normals (1 # 1000) (1 # 100000) false world_inside_out)
     = Ok tt
  /\ World.bm (snd (_check_bm_normals (1 # 1000) (1 # 100000) false
                                      world_inside_out))
     <> World.bm world_inside_out.
Proof.
  split; [reflexivity|]. split; [reflexivity|].
  intros Heq.
  apply (f_equal (fun bm => map BMFace.verts (BMesh.faces bm))) in Heq.
  vm_compute in Heq. discriminate.
Qed.

(** C4 fails as stated: two slots bound to the same material give a
    materials list that names it twice. *)
Lemma materials_counterexample :
  get_trisurface 1 true false scene_two_slots =
  (Ok (["Steel"; "Steel"],
       map (vert_row 1) (BMesh.verts tetra),
       [(1, 3, 2, 1); (1, 2, 4, 1); (1, 4, 3, 1); (2, 3, 4, 1)]%nat),
   scene_two_slots)
  /\ ~ NoDup ["Steel"; "Steel"].
Proof.
  split; [reflexivity|].
  intros Hnd. inversion Hnd as [|? ? Hnotin _]. apply Hnotin. now left.
Qed.

Lemma get_trisurface_materials_per_slot_witness :
  get_trisurface 1 true false scene_two_slots =
  (Ok (["Steel"; "Steel"],
       map (vert_row 1) (BMesh.verts tetra),
       [(1, 3, 2, 1); (1, 2, 4, 1); (1, 4, 3, 1); (2, 3, 4, 1)]%nat),
   scene_two_slots)
  /\ ["Steel"; "Steel"] =
     map slot_name (Object.material_slots (Scene.ob scene_two_slots))
  /\ Forall slot_exported (Object.material_slots (Scene.ob scene_two_slots))
  /\ List.length ["Steel"; "Steel"] =
     List.length (Object.material_slots (Scene.ob scene_two_slots)).
Proof.
  split; [reflexivity|].
  apply (get_trisurface_materials_per_slot
           1 true false scene_two_slots scene_two_slots ["Steel"; "Steel"]
           (map (vert_row 1) (BMesh.verts tetra))
           [(1, 3, 2, 1); (1, 2, 4, 1); (1, 4, 3, 1); (2, 3, 4, 1)]%nat).
  reflexivity.
Defined.

(** C5 fails as stated: an object whose first slot is bound to a material
    that is not exported and whose second slot is empty has an unbound
    slot, and fails with the not-exported error, not with the empty-slot
    one. *)
Lemma material_failures_counterexample :
  In (MaterialSlot.mk None)
     (Object.material_slots (Scene.ob scene_hidden_then_empty))
  /\ get_trisurface 1 true false scene_hidden_then_empty =
     (Raise (BFException "Cube" (msg_not_exported "Hidden")),
      scene_hidden_then_empty)
  /\ BFException "Cube" (msg_not_exported "Hidden")
     <> BFException "Cube" msg_empty_slot.
Proof.
  split; [simpl; auto|]. split; [reflexivity|].
  vm_compute. discriminate.
Qed.

Lemma get_trisurface_material_failures_witness :
  (Object.material_slots (Scene.ob scene_no_slot) = []
   /\ get_trisurface 1 true false scene_no_slot =
      (Raise (BFException "Cube" msg_no_material), scene_no_slot))
  /\ (Object.material_slots (Scene.ob scene_hidden_then_empty) =
      ([] ++ MaterialSlot.mk (Some hidden) :: [MaterialSlot.mk None])%list
      /\ Material.bf_surf_export hidden = false
      /\ get_trisurface 1 true false scene_hidden_then_empty =
         (Raise (BFException "Cube" (msg_not_exported "Hidden")),
          scene_hidden_then_empty)).
Proof.
  split.
  - split; [reflexivity|].
    apply (get_trisurface_material_failures 1 true false scene_no_slot).
    reflexivity.
  - split; [reflexivity|]. split; [reflexivity|].
    apply (proj2 (proj2 (get_trisurface_material_failures
                           1 true false scene_hidden_then_empty)
                    [] (MaterialSlot.mk (Some hidden)) [MaterialSlot.mk None]
                    eq_refl (Forall_nil _))
             hidden eq_refl eq_refl).
Defined.





Lemma duplicate_vertices_reported_witness :
  0 <= 1 # 1000
  /\ BMesh.verts_lookup tetra_short_flipped = true
  /\ exists bad_verts,
       duplicate_vertices tetra_short_flipped (1 # 1000) = Ok bad_verts
       /\ (forall i,
              In i bad_verts <->
              has_neighbour (1 # 1000) (BMesh.verts tetra_short_flipped) i).
Proof.
  assert (Hradius : 0 <= 1 # 1000) by (unfold Qle; simpl; lia).
  split; [exact Hradius|]. split; [reflexivity|].
  destruct (duplicate_vertices_reported tetra_short_flipped (1 # 1000)
              Hradius eq_refl)
    as (bad & Hrun & Hbad & _).
  exists bad. split; assumption.
Defined.

Lemma _check_bm_degenerate_faces_monotone_witness :
  1 # 1000 <= 1 # 100
  /\ In 0%nat (degenerate_faces tetra_short_flipped (1 # 1000))
  /\ In 0%nat (degenerate_faces tetra_short_flipped (1 # 100)).
Proof.
  assert (Hle : 1 # 1000 <= 1 # 100) by (unfold Qle; simpl; lia).
  assert (Hin : In 0%nat (degenerate_faces tetra_short_flipped (1 # 1000)))
    by (vm_compute; auto).
  split; [exact Hle|]. split; [exact Hin|].
  apply (proj1 (proj2 (proj2 (_check_bm_degenerate_faces_monotone
                                (1 # 1000) (1 # 1000) true
                                world_short_flipped))
                      (1 # 100) Hle)).
  exact Hin.
Defined.

(** C10 fails as stated: [check_intersections], run with [protect] on two
    crossed triangles while the object is being edited, raises
    "Intersection detected." and leaves the context in OBJECT mode; the
    scene is not as it was before the check. *)
Lemma check_intersections_counterexample :
  fst (check_intersections [] true scene_crossed_editing) =
  Raise (BFException "Cube" "Intersection detected.")
  /\ Context.mode (Scene.context scene_crossed_editing) = EDIT
  /\ Context.mode
       (Scene.context (snd (check_intersections [] true scene_crossed_editing)))
     = OBJECT
  /\ snd (check_intersections [] true scene_crossed_editing)
     <> scene_crossed_editing.
Proof.
  split; [reflexivity|]. split; [reflexivity|]. split; [reflexivity|].
  intros Heq.
  apply (f_equal (fun sc => Context.mode (Scene.context sc))) in Heq.
  vm_compute in Heq. discriminate.
Qed.

(** C3, at a failing input: the tetrahedron at the origin is checked
    against an object placed a quarter along each axis whose own mesh lies
    a hundred units away. The tetrahedron intersects nothing of its own,
    and the mesh of the other object, brought into the frame of the first,
    overlaps none of its triangles; yet [check_intersections] reports an
    intersection, and reports the same one when the other object carries a
    mesh next to the origin, for the tree it builds is that of the
    tetrahedron itself moved by the relative transform. *)
Theorem check_intersections_other_mesh_unused :
  fst (check_intersections [] true scene_tetra) = Ok tt
  /\ overlap (FromBMesh tetra (1 # 1000))
             (FromBMesh
                (Ref.transform
                   (matmul (Ref.vneg (Object.matrix_world (Scene.ob scene_tetra)))
                           (Object.matrix_world far_away))
                   (Object.data far_away))
                (1 # 1000)) = []
  /\ check_intersections [far_away] true scene_tetra =
     (Raise (BFException "Cube" "Intersection detected."), scene_tetra)
  /\ check_intersections [far_away] true scene_tetra =
     check_intersections [near_by] true scene_tetra.
Proof.
  split; [reflexivity|]. split; [vm_compute; reflexivity|].
  split; reflexivity.
Qed.

(** C8, at a failing input: two closed tetrahedra with a corner each at
    the origin, so that vertices 0 and 4 lie at the same place. Through
    [check_geom_quality], which asks for a bmesh with its lookup tables,
    the detector reports both vertices, each in the group of the other:
    "Duplicate vertices detected (4 vertices).". Through
    [get_trisurface], which asks for a bmesh without them, the same
    detector stops at [bm.verts[i]] with an [IndexError] and reports
    nothing; without the check the surface is exported. *)
Theorem duplicate_vertices_export_index_error :
  has_neighbour (1 # 1000) (BMesh.verts two_tetras) 0
  /\ has_neighbour (1 # 1000) (BMesh.verts two_tetras) 4
  /\ check_geom_quality true scene_two_tetras =
     (Raise (BFException "Cube" "Duplicate vertices detected (4 vertices)."),
      scene_two_tetras)
  /\ get_trisurface 1 true false scene_two_tetras =
     (Raise IndexError, scene_two_tetras)
  /\ exists surface,
       get_trisurface 1 false false scene_two_tetras =
       (Ok surface, scene_two_tetras).
Proof.
  assert (Hnear : within (1 # 1000) (vert 0 0 0 [0; 1; 2]%nat)
                         (vert 0 0 0 [6; 7; 8]%nat))
    by (unfold within, Qle; vm_compute; discriminate).
  split.
  { exists 4%nat, (vert 0 0 0 [0; 1; 2]%nat), (vert 0 0 0 [6; 7; 8]%nat).
    split; [discriminate|]. split; [reflexivity|]. split; [reflexivity|].
    exact Hnear. }
  split.
  { exists 0%nat, (vert 0 0 0 [6; 7; 8]%nat), (vert 0 0 0 [0; 1; 2]%nat).
    split; [discriminate|]. split; [reflexivity|]. split; [reflexivity|].
    apply within_sym. exact Hnear. }
  split; [reflexivity|]. split; [reflexivity|].
  eexists. reflexivity.
Qed.


(** ** Further runs *)

Lemma _get_materials_ok_iff_witness :
  Object.material_slots (Scene.ob scene_two_slots) <> []
  /\ Forall slot_exported (Object.material_slots (Scene.ob scene_two_slots))
  /\ _get_materials (Scene.ob scene_two_slots) = Ok ["Steel"; "Steel"].
Proof.
  assert (Hne : Object.material_slots (Scene.ob scene_two_slots) <> [])
    by discriminate.
  assert (Hexp : Forall slot_exported
                        (Object.material_slots (Scene.ob scene_two_slots))).
  { repeat (apply Forall_cons; [exists steel; split; reflexivity|]).
    apply Forall_nil. }
  split; [exact Hne|]. split; [exact Hexp|].
  apply (proj2 (proj1 (_get_materials_ok_iff (Scene.ob scene_two_slots)))).
  split; assumption.
Defined.

Lemma _raise_bad_geometry_prepares_editing_witness :
  [0%nat] <> []
  /\ exists w',
       _raise_bad_geometry "Non manifold vertices detected (1 vertices)."
                           false [0%nat] [] [] world_tetra =
       (Raise (BFException "Cube"
                           "Non manifold vertices detected (1 vertices)."),
        w')
       /\ left_for_editing world_tetra w'
       /\ Context.select_mode (Scene.context (World.scene w')) = VERT.
Proof.
  assert (Hbad : [0%nat] <> []) by discriminate.
  split; [exact Hbad|].
  destruct (_raise_bad_geometry_prepares_editing
              "Non manifold vertices detected (1 vertices)."
              [0%nat] [] [] world_tetra (or_introl Hbad))
    as (w' & Hrun & Hedit & Hvert & _).
  exists w'. split; [exact Hrun|]. split; [exact Hedit|]. exact (Hvert Hbad).
Defined.

Lemma _raise_bad_geometry_selects_bad_witness :
  nth_error (BMesh.verts tetra) 3 = Some (vert 0 0 1 [2; 4; 5]%nat)
  /\ vert_selected
       (Object.data
          (Scene.ob
             (World.scene
                (snd (_raise_bad_geometry "msg" false [] [0; 5]%nat []
                                          world_tetra)))))
       3 = true
  /\ option_map
       (fun shown =>
          (map BMVert.select (BMesh.verts shown),
           map BMEdge.select (BMesh.edges shown),
           map BMFace.select (BMesh.faces shown)))
       (Context.edit_mesh
          (Scene.context
             (World.scene
                (snd (_raise_bad_geometry "msg" false [] [0; 5]%nat []
                                          world_tetra))))) =
     Some ([true; true; true; true],
           [true; true; true; true; true; true],
           [true; true; true; true]).
Proof.
  assert (Hnth : nth_error (BMesh.verts tetra) 3 =
                 Some (vert 0 0 1 [2; 4; 5]%nat)) by reflexivity.
  split; [exact Hnth|]. split; [|reflexivity].
  apply (proj1 (_raise_bad_geometry_selects_bad
                  "msg" [] [0; 5]%nat [] world_tetra) 3%nat _ Hnth).
  right. left. exists 5%nat. split; simpl; auto.
Defined.

Lemma check_geom_quality_pass_keeps_scene_witness :
  fst (check_geom_quality false scene_tetra) = Ok tt
  /\ snd (check_geom_quality false scene_tetra) = scene_tetra.
Proof.
  assert (Hpass : fst (check_geom_quality false scene_tetra) = Ok tt)
    by reflexivity.
  split; [exact Hpass|].
  exact (check_geom_quality_pass_keeps_scene false scene_tetra Hpass).
Defined.

Lemma _check_bm_quality_accepts_clean_witness :
  0 <= 1 # 1000
  /\ (fst (_check_bm_quality false world_tetra) = Ok tt
      <-> clean_mesh (1 # 1000) (1 # 100000) tetra).
Proof.
  assert (Hpos : 0 <= 1 # 1000) by (unfold Qle; simpl; lia).
  split; [exact Hpos|].
  exact (_check_bm_quality_accepts_clean false world_tetra Hpos).
Defined.

Lemma duplicate_vertices_listed_twice_witness :
  duplicate_vertices tetra_short_flipped (1 # 1000) = Ok [0; 1; 0; 1]%nat
  /\ In 0%nat [0; 1; 0; 1]%nat
  /\ (2 <= count_occ Nat.eq_dec [0; 1; 0; 1]%nat 0)%nat.
Proof.
  assert (Hrun : duplicate_vertices tetra_short_flipped (1 # 1000)
                 = Ok [0; 1; 0; 1]%nat) by (vm_compute; reflexivity).
  assert (Hin : In 0%nat [0; 1; 0; 1]%nat) by (simpl; auto).
  split; [exact Hrun|]. split; [exact Hin|].
  exact (duplicate_vertices_listed_twice
           tetra_short_flipped (1 # 1000) [0; 1; 0; 1]%nat 0 Hrun Hin).
Defined.

Lemma _check_bm_duplicate_vertices_outdated_table_witness :
  0 <= 1 # 1000
  /\ BMesh.verts_lookup (BMesh.set_verts_lookup false two_tetras) = false
  /\ has_neighbour (1 # 1000) (BMesh.verts two_tetras) 0
  /\ _check_bm_duplicate_vertices
       (1 # 1000) (1 # 100000) false
       (World.mk scene_two_tetras (BMesh.set_verts_lookup false two_tetras)) =
     (Raise IndexError,
      World.mk scene_two_tetras (BMesh.set_verts_lookup false two_tetras)).
Proof.
  assert (Hradius : 0 <= 1 # 1000) by (unfold Qle; simpl; lia).
  assert (Hnear : has_neighbour (1 # 1000) (BMesh.verts two_tetras) 0).
  { exists 4%nat, (vert 0 0 0 [0; 1; 2]%nat), (vert 0 0 0 [6; 7; 8]%nat).
    split; [discriminate|]. split; [reflexivity|]. split; [reflexivity|].
    unfold within, Qle. vm_compute. discriminate. }
  split; [exact Hradius|]. split; [reflexivity|]. split; [exact Hnear|].
  apply (proj1 (_check_bm_duplicate_vertices_outdated_table
                  (1 # 1000) (1 # 100000) false
                  (World.mk scene_two_tetras
                            (BMesh.set_verts_lookup false two_tetras))
                  Hradius eq_refl)).
  exists 0%nat. exact Hnear.
Defined.

Lemma _get_bm_intersected_faces_distinct_witness :
  (forall i j,
      In (i, j) (overlap (FromBMesh crossed (1 # 1000))
                         (FromBMesh crossed (1 # 1000))) ->
      (i < List.length (BMesh.faces crossed))%nat)
  /\ exists fs,
       _get_bm_intersected_faces crossed (FromBMesh crossed (1 # 1000))
                                 (FromBMesh crossed (1 # 1000)) = Ok fs
       /\ NoDup fs.
Proof.
  assert (Hrange : forall i j,
             In (i, j) (overlap (FromBMesh crossed (1 # 1000))
                                (FromBMesh crossed (1 # 1000))) ->
             (i < List.length (BMesh.faces crossed))%nat).
  { intros i j Hin. vm_compute in Hin.
    destruct Hin as [Hin | [Hin | []]]; injection Hin as <- <-;
      simpl; lia. }
  split; [exact Hrange|].
  destruct (proj1 (_get_bm_intersected_faces_distinct
                     crossed (FromBMesh crossed (1 # 1000))
                     (FromBMesh crossed (1 # 1000))) Hrange)
    as (fs & Hrun & Hnd & _).
  exists fs. split; assumption.
Defined.

Lemma check_intersections_self_overlap_witness :
  get_object_bmesh
    (mode_set_object_if_active (Scene.context scene_crossed_editing))
    (Scene.ob scene_crossed_editing) None None None (Some true) = Ok crossed
  /\ overlap (FromBMesh crossed (1 # 1000)) (FromBMesh crossed (1 # 1000))
     <> []
  /\ exists e sc',
       check_intersections [far_away] false scene_crossed_editing =
       (Raise e, sc').
Proof.
  assert (Hbm : get_object_bmesh
                  (mode_set_object_if_active
                     (Scene.context scene_crossed_editing))
                  (Scene.ob scene_crossed_editing) None None None (Some true)
                = Ok crossed) by reflexivity.
  assert (Hov : overlap (FromBMesh crossed (1 # 1000))
                        (FromBMesh crossed (1 # 1000)) <> [])
    by (vm_compute; discriminate).
  split; [exact Hbm|]. split; [exact Hov|].
  exact (proj1 (check_intersections_self_overlap
                  [far_away] false scene_crossed_editing crossed Hbm) Hov).
Defined.

Lemma get_trisurface_rows_witness :
  get_trisurface 0.5 true false scene_tetra =
  (Ok (["Steel"],
       map (vert_row 0.5) (BMesh.verts tetra),
       [(1, 3, 2, 1); (1, 2, 4, 1); (1, 4, 3, 1); (2, 3, 4, 1)]%nat),
   scene_tetra)
  /\ exists bm,
       get_object_bmesh (Scene.context scene_tetra) (Scene.ob scene_tetra)
                        None (Some true) (Some true) (Some false) = Ok bm
       /\ Forall2 row_of_face (BMesh.faces bm)
                  [(1, 3, 2, 1); (1, 2, 4, 1); (1, 4, 3, 1); (2, 3, 4, 1)]%nat.
Proof.
  assert (Hrun : get_trisurface 0.5 true false scene_tetra =
                 (Ok (["Steel"],
                      map (vert_row 0.5) (BMesh.verts tetra),
                      [(1, 3, 2, 1); (1, 2, 4, 1); (1, 4, 3, 1);
                       (2, 3, 4, 1)]%nat),
                  scene_tetra)) by reflexivity.
  split; [exact Hrun|].
  destruct (get_trisurface_rows _ _ _ _ _ _ _ _ Hrun)
    as (bm & Hbm & _ & Hrows).
  exists bm. split; assumption.
Defined.

Lemma _check_bm_quality_failure_edits_host_witness :
  fst (_check_bm_quality false world_short_flipped) =
  Raise (BFException "Cube" "Too short edges detected (1 edges).")
  /\ left_for_editing world_short_flipped
                      (snd (_check_bm_quality false world_short_flipped)).
Proof.
  assert (Hfail : fst (_check_bm_quality false world_short_flipped) =
                  Raise (BFException "Cube"
                                     "Too short edges detected (1 edges)."))
    by reflexivity.
  split; [exact Hfail|].
  exact (_check_bm_quality_failure_edits_host world_short_flipped _ _ Hfail).
Defined.

Lemma _check_bm_quality_tolerance_monotone_witness :
  World.bm world_tetra_tight = World.bm world_tetra
  /\ 0 <= 1 # 2000
  /\ 1 # 2000 <= 1 # 1000
  /\ 1 # 200000 <= 1 # 100000
  /\ fst (_check_bm_quality true world_tetra) = Ok tt
  /\ fst (_check_bm_quality true world_tetra_tight) = Ok tt.
Proof.
  assert (Hpos : 0 <= 1 # 2000) by (unfold Qle; simpl; lia).
  assert (Hel : 1 # 2000 <= 1 # 1000) by (unfold Qle; simpl; lia).
  assert (Hea : 1 # 200000 <= 1 # 100000) by (unfold Qle; simpl; lia).
  assert (Hpass : fst (_check_bm_quality true world_tetra) = Ok tt)
    by reflexivity.
  split; [reflexivity|]. split; [exact Hpos|]. split; [exact Hel|].
  split; [exact Hea|]. split; [exact Hpass|].
  exact (_check_bm_quality_tolerance_monotone
           true world_tetra_tight world_tetra eq_refl Hpos Hel Hea Hpass).
Defined.

End Runs.
